(** * Aeon-MLTB: bot/helper/mirror_leech_utils/gdrive_utils/download.py

    A shallow embedding of [GoogleDriveDownload] (the methods [download],
    [_download_folder] and [_download_file]) and the properties of its
    retry, rotation, cancellation and reporting logic.

    Python values are modelled as follows.
    - [str] is a sequence of Unicode code points ([pystr]); [len], slicing and
      [replace] work on code points, [encode()] produces UTF-8 bytes or
      raises [UnicodeEncodeError] on a lone surrogate.
    - The object under transfer is what [MediaIoBaseDownload] delivers: a
      sequence of chunks; [next_chunk] writes chunk number [progress] and
      reports [done] when it was the last one.
    - Everything the outside world decides during a run (whether a chunk
      request fails and how, whether the user cancels while a request is in
      flight) is a script of responses consumed one per [next_chunk] call.
    - The listener callbacks, the progress timer, file opens and closes and
      the chunk requests are recorded in a trace of events.
    - The local file system maps the files to their contents.  Which file a
      path names ([realpath]) and whether [FileIO] accepts a path
      ([open_error]) is for the operating system to say; it is a parameter
      of the run, like the answers of the remote store. *)

From Stdlib Require Import List NArith Arith Bool Lia String Ascii.
From Stdlib Require Strings.Byte DecimalString HexadecimalString.
Import ListNotations.

Set Implicit Arguments.

(** ** Python strings *)

Module PyStr.

Definition pystr := list N.

(** An ASCII literal of the source as a [pystr]. *)
Definition lit (s : string) : pystr :=
  map N_of_ascii (list_ascii_of_string s).

Fixpoint eqb (a b : pystr) : bool :=
  match a, b with
  | [], [] => true
  | x :: a', y :: b' => N.eqb x y && eqb a' b'
  | _, _ => false
  end.

(** [s.startswith(p)] *)
Fixpoint startswith (p s : pystr) : bool :=
  match p, s with
  | [], _ => true
  | x :: p', y :: s' => N.eqb x y && startswith p' s'
  | _ :: _, [] => false
  end.

(** [s.endswith(p)] *)
Definition endswith (p s : pystr) : bool :=
  startswith (rev p) (rev s).

(** [s.endswith(tuple(ps))]: true when some member is a suffix; the empty
    tuple gives [False]. *)
Definition endswith_any (ps : list pystr) (s : pystr) : bool :=
  existsb (fun p => endswith p s) ps.

(** [sub in s] *)
Fixpoint contains (sub s : pystr) : bool :=
  startswith sub s ||
  match s with
  | [] => false
  | _ :: s' => contains sub s'
  end.

(** [s.replace(c, "")] for a one-character [c]. *)
Definition remove_char (c : N) (s : pystr) : pystr :=
  filter (fun x => negb (N.eqb x c)) s.

(** [x in [a, b, ...]] for strings. *)
Definition mem (x : pystr) (l : list pystr) : bool :=
  existsb (eqb x) l.

(** The code points for which [str.isspace()] holds; [str.strip()] removes
    them from both ends. *)
Definition isspace (c : N) : bool :=
  (((9 <=? c) && (c <=? 13)) || ((28 <=? c) && (c <=? 32))
   || (c =? 133) || (c =? 160) || (c =? 5760)
   || ((8192 <=? c) && (c <=? 8202)) || (c =? 8232) || (c =? 8233)
   || (c =? 8239) || (c =? 8287) || (c =? 12288))%N.

Fixpoint lstrip (s : pystr) : pystr :=
  match s with
  | [] => []
  | c :: s' => if isspace c then lstrip s' else s
  end.

Definition strip (s : pystr) : pystr :=
  rev (lstrip (rev (lstrip s))).

(** Number of bytes of the UTF-8 encoding of one code point. *)
Definition utf8_width (c : N) : nat :=
  if (c <? 128)%N then 1
  else if (c <? 2048)%N then 2
  else if (c <? 65536)%N then 3
  else 4.

(** [len(s.encode())], for a string that can be encoded: one without a lone
    surrogate.  For the others [encode] raises, see [encode_error] below;
    an attempt on such a name ends at line 118 and never gets to use the
    length. *)
Fixpoint encoded_len (s : pystr) : nat :=
  match s with
  | [] => 0
  | c :: s' => utf8_width c + encoded_len s'
  end.

(** [s.rfind(c)]: the last index of [c], counted from [i]. *)
Fixpoint rfind_from (c : N) (s : pystr) (i : nat) : option nat :=
  match s with
  | [] => None
  | x :: s' =>
      match rfind_from c s' (S i) with
      | Some j => Some j
      | None => if N.eqb x c then Some i else None
      end
  end.

Definition rfind (c : N) (s : pystr) : option nat := rfind_from c s 0.

Definition slash : N := 47%N.
Definition dot : N := 46%N.

(** [os.path.splitext] of posixpath: the extension starts at the last dot of
    the last path component, unless only dots precede it there. *)
Definition splitext (p : pystr) : pystr * pystr :=
  let filenameIndex := match rfind slash p with None => 0 | Some i => S i end in
  match rfind dot p with
  | None => (p, [])
  | Some dotIndex =>
      if (filenameIndex <=? dotIndex)
         && existsb (fun c => negb (N.eqb c dot))
              (firstn (dotIndex - filenameIndex) (skipn filenameIndex p))
      then (firstn dotIndex p, skipn dotIndex p)
      else (p, [])
  end.

End PyStr.
Import PyStr.

(** ** File-name preparation of [_download_file] (lines 115-123) *)

(** The name the destination file is opened under. *)
Definition prepared_filename (export : bool) (filename : pystr) : pystr :=
  let filename := remove_char slash filename in
  let filename := if export then filename ++ lit ".pdf" else filename in
  if 255 <? encoded_len filename
  then firstn 245 filename ++ snd (splitext filename)
  else filename.

(** ** Data model *)

Definition bytes := list Byte.byte.

(** What evaluating
    [eval(err.content).get("error").get("errors")[0].get("reason")] gives:
    a reason string, or an exception (a body that is no Python literal, a
    missing key, a reason that is not a string) with its class and text. *)
Inductive parsed :=
| Reason (reason : pystr)
| ParseFailed (cls msg : pystr).

(** A [googleapiclient.errors.HttpError]: [err.resp.status], the
    [content-type] header, the outcome of decoding [err.content] and
    [str(err)]. *)
Record http_error := {
  status : nat;
  content_type : pystr;
  content : parsed;
  message : pystr }.

Inductive exn :=
| HttpError (e : http_error)
| PyError (cls msg : pystr)
| RetryError (last_attempt : exn).

Definition class_name (x : exn) : pystr :=
  match x with
  | HttpError _ => lit "HttpError"
  | PyError cls _ => cls
  | RetryError _ => lit "RetryError"
  end.

(** [str(err)].  For tenacity's [RetryError] this is the class name and the
    [repr] of the last attempt's future (whose address is fixed to 0x0). *)
Definition str_of_exn (x : exn) : pystr :=
  match x with
  | HttpError e => message e
  | PyError _ msg => msg
  | RetryError last =>
      lit "RetryError[<Future at 0x0 state=finished raised "
        ++ class_name last ++ lit ">]"
  end.

(** [filename.encode()] (line 118) raises [UnicodeEncodeError] when the name
    holds a lone surrogate (U+D800 to U+DFFF); the text names the first run
    of surrogates. *)
Definition is_surrogate (c : N) : bool := ((55296 <=? c) && (c <=? 57343))%N.

Fixpoint surrogate_run (s : pystr) : nat :=
  match s with
  | c :: s' => if is_surrogate c then S (surrogate_run s') else 0
  | [] => 0
  end.

Fixpoint first_surrogate (s : pystr) (i : nat) : option (nat * N * nat) :=
  match s with
  | [] => None
  | c :: s' =>
      if is_surrogate c then Some (i, c, surrogate_run s)
      else first_surrogate s' (S i)
  end.

Definition decimal (n : nat) : pystr :=
  lit (DecimalString.NilZero.string_of_uint (Nat.to_uint n)).

Definition hexadecimal (c : N) : pystr :=
  lit (HexadecimalString.NilZero.string_of_uint (N.to_hex_uint c)).

Definition encode_error (s : pystr) : option exn :=
  match first_surrogate s 0 with
  | None => None
  | Some (i, c, k) =>
      Some (PyError (lit "UnicodeEncodeError")
              (if k =? 1
               then lit "'utf-8' codec can't encode character '\u"
                      ++ hexadecimal c ++ lit "' in position "
                      ++ decimal i ++ lit ": surrogates not allowed"
               else lit "'utf-8' codec can't encode characters in position "
                      ++ decimal i ++ lit "-" ++ decimal (i + k - 1)
                      ++ lit ": surrogates not allowed"))
  end.

Inductive credential :=
| Primary
| ServiceAccount (index : nat).

Inductive event :=
| UpdaterStart
| UpdaterCancel
| OnDownloadError (msg : pystr)
| OnDownloadComplete
| FileOpen (p : pystr)
| FileClose (p : pystr)
| NextChunk (file_id : pystr) (export : bool) (progress : nat)
| SwitchServiceAccount (index : nat).

(** An entry of a folder listing. *)
Record item := {
  item_id : pystr;
  item_name : pystr;
  shortcutDetails : option (pystr * pystr);
  item_mimeType : option pystr }.

(** The mutable part of a [GoogleDriveDownload] object, of its listener and of
    the local file system, with the trace of what the run has done so far. *)
Record state := {
  use_sa : bool;
  alt_auth : bool;
  sa_count : nat;
  sa_number : nat;
  sa_index : nat;
  service : credential;
  is_cancelled : bool;
  name : pystr;
  file_processed_bytes : nat;
  files : list (pystr * bytes);
  dirs : list pystr;
  trace : list event }.

Definition set_use_sa (b : bool) (s : state) : state :=
  {| use_sa := b; alt_auth := alt_auth s; sa_count := sa_count s;
     sa_number := sa_number s; sa_index := sa_index s; service := service s;
     is_cancelled := is_cancelled s; name := name s;
     file_processed_bytes := file_processed_bytes s; files := files s;
     dirs := dirs s; trace := trace s |}.

Definition set_alt_auth (b : bool) (s : state) : state :=
  {| use_sa := use_sa s; alt_auth := b; sa_count := sa_count s;
     sa_number := sa_number s; sa_index := sa_index s; service := service s;
     is_cancelled := is_cancelled s; name := name s;
     file_processed_bytes := file_processed_bytes s; files := files s;
     dirs := dirs s; trace := trace s |}.

Definition set_rotation (index count : nat) (s : state) : state :=
  {| use_sa := use_sa s; alt_auth := alt_auth s; sa_count := count;
     sa_number := sa_number s; sa_index := index; service := service s;
     is_cancelled := is_cancelled s; name := name s;
     file_processed_bytes := file_processed_bytes s; files := files s;
     dirs := dirs s; trace := trace s |}.

Definition set_service (c : credential) (s : state) : state :=
  {| use_sa := use_sa s; alt_auth := alt_auth s; sa_count := sa_count s;
     sa_number := sa_number s; sa_index := sa_index s; service := c;
     is_cancelled := is_cancelled s; name := name s;
     file_processed_bytes := file_processed_bytes s; files := files s;
     dirs := dirs s; trace := trace s |}.

Definition set_is_cancelled (b : bool) (s : state) : state :=
  {| use_sa := use_sa s; alt_auth := alt_auth s; sa_count := sa_count s;
     sa_number := sa_number s; sa_index := sa_index s; service := service s;
     is_cancelled := b; name := name s;
     file_processed_bytes := file_processed_bytes s; files := files s;
     dirs := dirs s; trace := trace s |}.

Definition set_name (n : pystr) (s : state) : state :=
  {| use_sa := use_sa s; alt_auth := alt_auth s; sa_count := sa_count s;
     sa_number := sa_number s; sa_index := sa_index s; service := service s;
     is_cancelled := is_cancelled s; name := n;
     file_processed_bytes := file_processed_bytes s; files := files s;
     dirs := dirs s; trace := trace s |}.

Definition set_file_processed_bytes (n : nat) (s : state) : state :=
  {| use_sa := use_sa s; alt_auth := alt_auth s; sa_count := sa_count s;
     sa_number := sa_number s; sa_index := sa_index s; service := service s;
     is_cancelled := is_cancelled s; name := name s;
     file_processed_bytes := n; files := files s;
     dirs := dirs s; trace := trace s |}.

Definition set_files (f : list (pystr * bytes)) (s : state) : state :=
  {| use_sa := use_sa s; alt_auth := alt_auth s; sa_count := sa_count s;
     sa_number := sa_number s; sa_index := sa_index s; service := service s;
     is_cancelled := is_cancelled s; name := name s;
     file_processed_bytes := file_processed_bytes s; files := f;
     dirs := dirs s; trace := trace s |}.

Definition set_dirs (d : list pystr) (s : state) : state :=
  {| use_sa := use_sa s; alt_auth := alt_auth s; sa_count := sa_count s;
     sa_number := sa_number s; sa_index := sa_index s; service := service s;
     is_cancelled := is_cancelled s; name := name s;
     file_processed_bytes := file_processed_bytes s; files := files s;
     dirs := d; trace := trace s |}.

(** Appends an event to the trace. *)
Definition emit (ev : event) (s : state) : state :=
  {| use_sa := use_sa s; alt_auth := alt_auth s; sa_count := sa_count s;
     sa_number := sa_number s; sa_index := sa_index s; service := service s;
     is_cancelled := is_cancelled s; name := name s;
     file_processed_bytes := file_processed_bytes s; files := files s;
     dirs := dirs s; trace := trace s ++ [ev] |}.

(** ** The local file system *)

(** The files, each with its content.  A file is named here by what the
    operating system takes its path for (see [realpath] below), so two paths
    of one file are one entry. *)
Fixpoint fs_get (p : pystr) (fs : list (pystr * bytes)) : option bytes :=
  match fs with
  | [] => None
  | (q, c) :: fs' => if eqb p q then Some c else fs_get p fs'
  end.

Fixpoint fs_put (p : pystr) (c : bytes) (fs : list (pystr * bytes))
  : list (pystr * bytes) :=
  match fs with
  | [] => [(p, c)]
  | (q, d) :: fs' => if eqb p q then (p, c) :: fs' else (q, d) :: fs_put p c fs'
  end.

(** [os.path.isfile], [os.path.exists] and [makedirs] on what a path
    names. *)
Definition isfile (p : pystr) (s : state) : bool :=
  match fs_get p (files s) with Some _ => true | None => false end.

Definition exists_path (p : pystr) (s : state) : bool :=
  isfile p s || mem p (dirs s).

(** [makedirs(p)] and [makedirs(p, exist_ok=True)] on a path that is not a
    file: the directory is there afterwards. *)
Definition makedirs (p : pystr) (s : state) : state :=
  if mem p (dirs s) then s else set_dirs (p :: dirs s) s.

(** Writing [data] at the end of the file [p]. *)
Definition fs_append (p : pystr) (data : bytes) (fs : list (pystr * bytes))
  : list (pystr * bytes) :=
  match fs_get p fs with
  | Some c => fs_put p (c ++ data) fs
  | None => fs_put p data fs
  end.

(** What [next_chunk] writes to the open file [p]. *)
Definition fh_write (p : pystr) (data : bytes) (s : state) : state :=
  set_files (fs_append p data (files s)) s.

Definition fh_close (p : pystr) (s : state) : state := emit (FileClose p) s.

(** ** The transport *)

(** What one [downloader.next_chunk()] call meets: the chunk is delivered, an
    [HttpError] is raised, or another exception (a socket error, say). *)
Inductive outcome :=
| Delivered
| Failed (e : http_error)
| Broken (cls msg : pystr).

(** A response of the world to one chunk request; [cancel_set] tells that the
    user set [listener.is_cancelled] while the request was in flight. *)
Record response := {
  cancel_set : bool;
  outcome_of : outcome }.

Definition script := list response.

Inductive result :=
| Returned (st : state) (rs : script)
| Raised (e : exn) (st : state) (rs : script)
| Waiting (st : state)
| OutOfFuel (st : state).

(** The state a computation has reached. *)
Definition final (r : result) : state :=
  match r with
  | Returned st _ | Raised _ st _ | Waiting st | OutOfFuel st => st
  end.

(** The members of [GoogleDriveHelper] that [download.py] reads or calls,
    Python's [str.lower] and the operating system: their code is not part of
    this file.  The lookups are functions of the credential in use and of
    the identifier, and are taken to leave the state of the object alone;
    [media] is the object as the downloader of [get_media] ([false]) or
    [export_media] ([true]) delivers it, chunk by chunk.  [realpath p] is
    the file or directory the path [p] names: the run makes no link and
    removes nothing, so it is the same throughout a run.  [open_error files
    dirs p] is the [OSError] with which [FileIO(p, "wb")] is refused on a
    disk that holds [files] and [dirs] (a name the file system does not
    take, a directory in the way), if it is refused. *)
Record helper := {
  G_DRIVE_DIR_MIME_TYPE : pystr;
  get_id_from_url : pystr -> pystr -> pystr;
  get_file_metadata : credential -> pystr -> exn + option pystr;
  get_files_by_folder_id : credential -> pystr -> exn + list item;
  media : bool -> pystr -> list bytes;
  lower : pystr -> pystr;
  realpath : pystr -> pystr;
  open_error : list (pystr * bytes) -> list pystr -> pystr -> option exn }.

(** [FileIO(p, "wb")]: the operating system refuses, or the file is created
    or truncated. *)
Definition opened (H : helper) (p : pystr) (s : state) : state :=
  emit (FileOpen p) (set_files (fs_put (realpath H p) [] (files s)) s).

Definition open_wb (H : helper) (p : pystr) (s : state) : exn + state :=
  match open_error H (files s) (dirs s) p with
  | Some e => inl e
  | None => inr (opened H p s)
  end.

(** The listener attributes the run only reads, and the [path] the object was
    built with. *)
Record listener_config := {
  link : pystr;
  user_id : pystr;
  excluded_extensions : list pystr;
  _path : pystr }.

(** Modelled from the spec: [GoogleDriveHelper.authorize] is not under src/.
    The current credential is the primary one unless service credentials are
    in use, then it is the service account at the current index. *)
Definition authorize (s : state) : credential :=
  if use_sa s then ServiceAccount (sa_index s) else Primary.

(** Modelled from the spec: [GoogleDriveHelper.switch_service_account] is not
    under src/.  It increments the current index, wrapping at the number of
    accounts, increments the rotation count and authorizes again. *)
Definition switch_service_account (s : state) : state :=
  let index := Nat.modulo (S (sa_index s)) (sa_number s) in
  let s := set_rotation index (S (sa_count s)) s in
  emit (SwitchServiceAccount index) (set_service (authorize s) s).

(** The arguments of [_download_file]. *)
Record args := {
  file_id : pystr;
  path : pystr;
  filename : pystr;
  mime_type : option pystr;
  export : bool }.

(** ** [_download_file] *)

Definition transient_statuses : list nat := [500; 502; 503; 504; 429].
Definition retry_ceiling : nat := 10.
Definition quota_reasons : list pystr :=
  [lit "downloadQuotaExceeded"; lit "dailyLimitExceeded"].

(** [err.resp.status in [500, 502, 503, 504, 429] and retries < 10] *)
Definition retried_in_place (e : http_error) (retries : nat) : bool :=
  existsb (Nat.eqb (status e)) transient_statuses && (retries <? retry_ceiling).

(** [err.resp.get("content-type", "").startswith("application/json")] *)
Definition is_json (e : http_error) : bool :=
  startswith (lit "application/json") (content_type e).

(** The file name after [replace("/", "")] and the export suffix, before the
    length check. *)
Definition requested_filename (export : bool) (filename : pystr) : pystr :=
  let filename := remove_char slash filename in
  if export then filename ++ lit ".pdf" else filename.

Definition file_path (dir filename : pystr) : pystr :=
  dir ++ lit "/" ++ filename.

(** Lines 118-123, the part that touches the listener: when the name had to
    be cut and the display name ends with the same extension, the display
    name becomes the cut name. *)
Definition track_truncation (export : bool) (filename : pystr) (st : state)
  : state :=
  let requested := requested_filename export filename in
  if 255 <? encoded_len requested
  then if endswith (snd (splitext requested)) (strip (name st))
       then set_name (prepared_filename export filename) st else st
  else st.

Definition with_filename (f : pystr) (a : args) : args :=
  {| file_id := file_id a; path := path a; filename := f;
     mime_type := mime_type a; export := export a |}.

Definition with_export (b : bool) (a : args) : args :=
  {| file_id := file_id a; path := path a; filename := filename a;
     mime_type := mime_type a; export := b |}.

(** tenacity's [stop_after_attempt(3)]. *)
Definition stop_after_attempt : nat := 3.

(** The [@retry] decorator: the call is repeated while it raises, and after
    the last attempt [RetryError] wraps the last exception.  [more] is the
    number of attempts left after the next one. *)
Fixpoint retrying (more : nat) (f : state -> script -> result)
    (st : state) (rs : script) : result :=
  match f st rs with
  | Raised e st' rs' =>
      match more with
      | 0 => Raised (RetryError e) st' rs'
      | S k => retrying k f st' rs'
      end
  | r => r
  end.

Section Engine.

Variable H : helper.
Variable L : listener_config.

Section Attempt.

(** The decorated method, as [self._download_file] names it in the body. *)
Variable self : args -> state -> script -> result.

(** Lines 130-175: the loop [while not done].  [a] carries the prepared file
    name, [progress] is the downloader's position (the number of the chunk it
    asks for next). *)
Fixpoint chunk_loop (a : args) (progress retries : nat)
    (st : state) (rs : script) {struct rs} : result :=
  if is_cancelled st
  then Returned (set_file_processed_bytes 0
                   (fh_close (file_path (path a) (filename a)) st)) rs
  else
    match rs with
    | [] => Waiting st
    | r :: rs' =>
        let st := emit (NextChunk (file_id a) (export a) progress) st in
        let st := if cancel_set r then set_is_cancelled true st else st in
        match outcome_of r with
        | Delivered =>
            let chunks := media H (export a) (file_id a) in
            let st := fh_write (realpath H (file_path (path a) (filename a)))
                        (nth progress chunks []) st in
            if List.length chunks <=? S progress
            then Returned (set_file_processed_bytes 0 st) rs'
            else chunk_loop a (S progress) retries st rs'
        | Broken cls msg => Raised (PyError cls msg) st rs'
        | Failed e =>
            if retried_in_place e retries
            then chunk_loop a progress (S retries) st rs'
            else if is_json e then
              match content e with
              | ParseFailed cls msg => Raised (PyError cls msg) st rs'
              | Reason reason =>
                  let rotate_or_raise :=
                    if negb (mem reason quota_reasons)
                    then Raised (HttpError e) st rs'
                    else if use_sa st then
                      if sa_number st <=? sa_count st
                      then Raised (HttpError e) st rs'
                      else if is_cancelled st then Returned st rs'
                      else self (with_export false a)
                                (switch_service_account st) rs'
                    else Raised (HttpError e) st rs' in
                  if contains (lit "fileNotDownloadable") reason then
                    match mime_type a with
                    | None =>
                        Raised (PyError (lit "TypeError")
                                  (lit "argument of type 'NoneType' is not iterable"))
                               st rs'
                    | Some m =>
                        if contains (lit "document") m
                        then self (with_export true a) st rs'
                        else rotate_or_raise
                    end
                  else rotate_or_raise
              end
            else chunk_loop a progress retries st rs'
        end
    end.

(** Lines 104-129 and the loop: one call of the undecorated function. *)
Definition download_file_attempt (a : args) (st : state) (rs : script)
  : result :=
  match encode_error (requested_filename (export a) (filename a)) with
  | Some e => Raised e st rs
  | None =>
      let prepared := prepared_filename (export a) (filename a) in
      let st := track_truncation (export a) (filename a) st in
      if is_cancelled st then Returned st rs
      else
        match open_wb H (file_path (path a) prepared) st with
        | inl e => Raised e st rs
        | inr st => chunk_loop (with_filename prepared a) 0 0 st rs
        end
  end.

End Attempt.

(** The decorated [_download_file].  [fuel] bounds the depth of the calls the
    method makes to itself. *)
Fixpoint _download_file (fuel : nat) (a : args) (st : state) (rs : script)
  : result :=
  match fuel with
  | 0 => OutOfFuel st
  | S fuel' =>
      retrying (stop_after_attempt - 1)
        (download_file_attempt (_download_file fuel') a) st rs
  end.

(** ** [_download_folder] *)

(** Python's order on [str]: lexicographic on code points. *)
Fixpoint str_leb (a b : pystr) : bool :=
  match a, b with
  | [], _ => true
  | _ :: _, [] => false
  | x :: a', y :: b' =>
      if (x <? y)%N then true else if (x =? y)%N then str_leb a' b' else false
  end.

Fixpoint insert_by_name (x : item) (l : list item) : list item :=
  match l with
  | [] => [x]
  | y :: l' =>
      if str_leb (item_name x) (item_name y) then x :: l
      else y :: insert_by_name x l'
  end.

(** [sorted(result, key=lambda k: k["name"])]: a stable sort. *)
Fixpoint sorted_by_name (l : list item) : list item :=
  match l with
  | [] => []
  | x :: l' => insert_by_name x (sorted_by_name l')
  end.

Definition option_eqb (a : option pystr) (b : pystr) : bool :=
  match a with Some x => eqb x b | None => false end.

(** Line 89-93: the test that lets a child that is not a folder through to
    [_download_file]. *)
Definition passes_filters (dir filename : pystr) (st : state) : bool :=
  negb (isfile (realpath H (dir ++ filename)) st)
  && negb (endswith_any (excluded_extensions L) (lower H (strip filename))).

Fixpoint _download_folder (fuel : nat) (folder_id dir folder_name : pystr)
    (st : state) (rs : script) : result :=
  match fuel with
  | 0 => OutOfFuel st
  | S fuel' =>
      let folder_name := remove_char slash folder_name in
      let st := if exists_path (realpath H (file_path dir folder_name)) st
                then st
                else makedirs (realpath H (file_path dir folder_name)) st in
      let dir := dir ++ lit "/" ++ folder_name in
      match get_files_by_folder_id H (service st) folder_id with
      | inl e => Raised e st rs
      | inr listing =>
          if List.length listing =? 0 then Returned st rs
          else
            (fix each (items : list item) (st : state) (rs : script)
               {struct items} : result :=
               match items with
               | [] => Returned st rs
               | it :: items' =>
                   let target :=
                     match shortcutDetails it with
                     | Some (targetId, targetMimeType) =>
                         (targetId, Some targetMimeType)
                     | None => (item_id it, item_mimeType it)
                     end in
                   let r :=
                     if option_eqb (snd target) (G_DRIVE_DIR_MIME_TYPE H)
                     then _download_folder fuel' (fst target) dir
                            (item_name it) st rs
                     else if passes_filters dir (item_name it) st
                     then _download_file fuel'
                            {| file_id := fst target; path := dir;
                               filename := item_name it;
                               mime_type := snd target; export := false |}
                            st rs
                     else Returned st rs in
                   match r with
                   | Returned st' rs' =>
                       if is_cancelled st' then Returned st' rs'
                       else each items' st' rs'
                   | other => other
                   end
               end) (sorted_by_name listing) st rs
      end
  end.

(** ** [download] *)

(** Lines 35-45: the [try] block. *)
Definition try_block (fuel : nat) (root_id : pystr) (st : state) (rs : script)
  : result :=
  match get_file_metadata H (service st) root_id with
  | inl e => Raised e st rs
  | inr mimeType =>
      if option_eqb mimeType (G_DRIVE_DIR_MIME_TYPE H)
      then _download_folder fuel root_id (_path L) (name st) st rs
      else _download_file fuel
             {| file_id := root_id; path := _path L; filename := name st;
                mime_type := mimeType; export := false |}
             (makedirs (realpath H (_path L)) st) rs
  end.

(** Lines 47-50: the text the handler works with. *)
Definition failure_text (err : exn) : pystr :=
  let err := match err with RetryError last => last | _ => err end in
  remove_char 60%N (remove_char 62%N (str_of_exn err)).

(** Lines 61-62. *)
Definition report_error (msg : pystr) (st : state) : state :=
  set_is_cancelled true (emit (OnDownloadError msg) st).

(** Lines 55-58: what the handler does before it calls [download] again. *)
Definition alt_auth_fallback (st : state) : state :=
  emit UpdaterCancel (set_use_sa false (set_alt_auth true st)).

(** Lines 63-66: the [finally] block. *)
Definition finally_block (st : state) : state :=
  let st := emit UpdaterCancel st in
  if is_cancelled st then st else emit OnDownloadComplete st.

(** Lines 32-33: the credential is authorized and the progress timer
    started.  (The identifier of line 31 does not depend on the state.) *)
Definition started (st : state) : state :=
  emit UpdaterStart (set_service (authorize st) st).

(** Line 59 under the [finally] of line 63: what the handler makes of the
    outcome of the call [self.download()]. *)
Definition after_retry (r : result) : result :=
  match r with
  | Returned st rs => Returned (finally_block st) rs
  | Raised e st rs => Raised e (finally_block st) rs
  | other => other
  end.

Fixpoint download (fuel : nat) (st : state) (rs : script) : result :=
  match fuel with
  | 0 => OutOfFuel st
  | S fuel' =>
      let root_id := get_id_from_url H (link L) (user_id L) in
      match try_block fuel' root_id (started st) rs with
      | Returned st rs => Returned (finally_block st) rs
      | Raised err st rs =>
          let err := failure_text err in
          if contains (lit "downloadQuotaExceeded") err
          then Returned
                 (finally_block
                    (report_error (lit "Download Quota Exceeded.") st)) rs
          else if contains (lit "File not found") err then
            if negb (alt_auth st) && use_sa st
            then after_retry (download fuel' (alt_auth_fallback st) rs)
            else Returned
                   (finally_block (report_error (lit "File not found!") st)) rs
          else Returned (finally_block (report_error err st)) rs
      | other => other
      end
  end.

End Engine.

(** ** Observations on traces and scripts *)

Definition is_error (ev : event) : bool :=
  match ev with OnDownloadError _ => true | _ => false end.

Definition is_complete (ev : event) : bool :=
  match ev with OnDownloadComplete => true | _ => false end.

(** The listener callbacks. *)
Definition is_callback (ev : event) : bool := is_error ev || is_complete ev.

(** The events only [download] itself emits: the callbacks and the timer. *)
Definition is_run_event (ev : event) : bool :=
  match ev with
  | UpdaterStart | UpdaterCancel | OnDownloadError _ | OnDownloadComplete => true
  | _ => false
  end.

Definition is_start (ev : event) : bool :=
  match ev with UpdaterStart => true | _ => false end.

(** A chunk request that is answered with the chunk, nobody cancelling. *)
Definition delivered : response :=
  {| cancel_set := false; outcome_of := Delivered |}.

(** A chunk request that raises [e], nobody cancelling. *)
Definition failing (e : http_error) : response :=
  {| cancel_set := false; outcome_of := Failed e |}.

(** The same, the user cancelling while the request is in flight. *)
Definition cancelled_during (o : outcome) : response :=
  {| cancel_set := true; outcome_of := o |}.

(** The script of a transfer in which the fetch of chunk [i] raises the
    errors [nth i faults] and then succeeds. *)
Definition faulty_script (faults : list (list http_error)) : script :=
  flat_map (fun es => map failing es ++ [delivered]) faults.

(** The requests such a transfer makes: chunk [i] is asked for once per
    error and once more. *)
Fixpoint requests_of (fid : pystr) (ex : bool) (faults : list (list http_error))
    (i : nat) : list event :=
  match faults with
  | [] => []
  | es :: faults' =>
      repeat (NextChunk fid ex i) (S (List.length es))
        ++ requests_of fid ex faults' (S i)
  end.

(** The file system after chunks [progress], ..., [progress + n - 1] have
    been written to [p]. *)
Fixpoint write_chunks (p : pystr) (chunks : list bytes) (progress n : nat)
    (fs : list (pystr * bytes)) : list (pystr * bytes) :=
  match n with
  | 0 => fs
  | S n' =>
      write_chunks p chunks (S progress) n'
        (fs_append p (nth progress chunks []) fs)
  end.

(** The state after the events [evs], nothing else changing. *)
Definition emits (evs : list event) (st : state) : state :=
  fold_left (fun s ev => emit ev s) evs st.

(** The attempt on [a] that is entered in [st] gets its file: the name can
    be encoded (line 118) and [FileIO] is not refused at the path (line
    126). *)
Definition can_open (H : helper) (a : args) (st : state) : Prop :=
  encode_error (requested_filename (export a) (filename a)) = None
  /\ open_error H (files st) (dirs st)
       (file_path (path a) (prepared_filename (export a) (filename a)))
     = None.

(** The status of the error is one of the retryable ones. *)
Definition transient (e : http_error) : Prop :=
  existsb (Nat.eqb (status e)) transient_statuses = true.

(** The number of [next_chunk] calls a transfer without errors makes. *)
Definition fetches (chunks : list bytes) : nat := Nat.max 1 (List.length chunks).



(** [download] went through the branch that ends in the listener's error
    callback or through the not-found branch. *)
Definition not_found_text (err : exn) : bool :=
  negb (contains (lit "downloadQuotaExceeded") (failure_text err))
  && contains (lit "File not found") (failure_text err).

(** The computation did not run out of fuel, and what it left of the script
    is no longer than [n]. *)
Definition bounded (n : nat) (r : result) : Prop :=
  match r with
  | Returned _ rs | Raised _ _ rs => List.length rs <= n
  | Waiting _ => True
  | OutOfFuel _ => False
  end.

(** No response of [used] sets the cancellation flag. *)
Definition cancel_free (used : script) : Prop :=
  forallb (fun r => negb (cancel_set r)) used = true.

(** The outcomes after which the loop goes to its next check whatever the
    retry counter is: a chunk, or an error without a JSON body. *)
Definition harmless (o : outcome) : bool :=
  match o with
  | Delivered => true
  | Failed e => negb (is_json e)
  | Broken _ _ => false
  end.

(** The flag was set by the last response of [used] and by no other; when
    the computation [raised], that response was not a harmless one. *)
Definition set_by_last (used : script) (st' : state) (raised : bool) : Prop :=
  exists pre r0,
    used = pre ++ [r0] /\ cancel_free pre /\ cancel_set r0 = true
    /\ is_cancelled st' = true
    /\ (raised = true -> harmless (outcome_of r0) = false).

(** What a transfer has taken from the script [rs], leaving [rs']. *)
Definition consumed (rs rs' : script) (st' : state) (raised : bool) : Prop :=
  exists used,
    rs = used ++ rs'
    /\ ((cancel_free used /\ is_cancelled st' = false)
        \/ set_by_last used st' raised).

(** A transfer entered with the flag set makes no request; entered with the
    flag not set, it makes no request after the one during which the flag is
    set. *)
Definition cancel_inv (st : state) (rs : script) (r : result) : Prop :=
  match r with
  | Returned st' rs' =>
      if is_cancelled st then rs' = rs /\ is_cancelled st' = true
      else consumed rs rs' st' false
  | Raised _ st' rs' =>
      if is_cancelled st then rs' = rs /\ is_cancelled st' = true
      else consumed rs rs' st' true
  | _ => True
  end.



(** ** Sample worlds *)

Module Sample.

Definition folder_mime : pystr := lit "application/vnd.google-apps.folder".

Definition ascii_lower (s : pystr) : pystr :=
  map (fun c => if ((65 <=? c) && (c <=? 90))%N then (c + 32)%N else c) s.

Definition two_chunks : list bytes := [[Byte.x68; Byte.x65]; [Byte.x79]].

Definition twelve_chunks : list bytes := repeat [Byte.x2a] 12.

Definition not_found : http_error :=
  {| status := 404; content_type := lit "application/json; charset=UTF-8";
     content := Reason (lit "notFound");
     message := lit "<HttpError 404 when requesting u returned 'File not found: id1.'>" |}.

Definition quota : http_error :=
  {| status := 403; content_type := lit "application/json; charset=UTF-8";
     content := Reason (lit "downloadQuotaExceeded");
     message := lit "<HttpError 403 when requesting u returned 'The download quota for this file has been exceeded.'. Details: 'downloadQuotaExceeded'>" |}.

(** A quota error whose text also names a missing file. *)
Definition quota_and_not_found : http_error :=
  {| status := 403; content_type := lit "application/json; charset=UTF-8";
     content := Reason (lit "downloadQuotaExceeded");
     message := lit "<HttpError 403 downloadQuotaExceeded: File not found: id1.>" |}.


Definition backend : http_error :=
  {| status := 503; content_type := lit "application/json; charset=UTF-8";
     content := Reason (lit "backendError");
     message := lit "<HttpError 503 when requesting u returned 'Backend Error'>" |}.

(** An error page that is not JSON. *)
Definition html_forbidden : http_error :=
  {| status := 403; content_type := lit "text/html; charset=UTF-8";
     content := ParseFailed (lit "SyntaxError") (lit "invalid syntax");
     message := lit "<HttpError 403 when requesting u returned 'Forbidden'>" |}.

(** A JSON body that Python's [eval] does not accept. *)
Definition unparsable : http_error :=
  {| status := 400; content_type := lit "application/json";
     content := ParseFailed (lit "NameError") (lit "name 'null' is not defined");
     message := lit "<HttpError 400 when requesting u returned 'Bad Request'>" |}.

Definition child_file : item :=
  {| item_id := lit "id2"; item_name := lit "a.txt";
     shortcutDetails := None; item_mimeType := Some (lit "text/plain") |}.

(** A store in which every identifier names a plain file that is delivered
    as [chunks], except [root], a folder that holds one file.  Here and in
    the stores below the operating system is one that takes every path for
    a file of its own and refuses none. *)
Definition drive (chunks : list bytes) : helper :=
  {| G_DRIVE_DIR_MIME_TYPE := folder_mime;
     get_id_from_url := fun l _ => l;
     get_file_metadata := fun _ id =>
       if eqb id (lit "root") then inr (Some folder_mime)
       else inr (Some (lit "text/plain"));
     get_files_by_folder_id := fun _ id =>
       if eqb id (lit "root") then inr [child_file] else inr [];
     media := fun _ _ => chunks;
     lower := ascii_lower;
     realpath := fun p => p;
     open_error := fun _ _ _ => None |}.

(** The same store, where the service accounts do not see the file. *)
Definition drive_hidden_from_sa : helper :=
  {| G_DRIVE_DIR_MIME_TYPE := folder_mime;
     get_id_from_url := fun l _ => l;
     get_file_metadata := fun c _ =>
       match c with
       | ServiceAccount _ => inl (HttpError not_found)
       | Primary => inr (Some (lit "text/plain"))
       end;
     get_files_by_folder_id := fun _ _ => inr [];
     media := fun _ _ => two_chunks;
     lower := ascii_lower;
     realpath := fun p => p;
     open_error := fun _ _ _ => None |}.

(** A store on which the metadata lookup fails with [e]. *)
Definition drive_failing (e : http_error) : helper :=
  {| G_DRIVE_DIR_MIME_TYPE := folder_mime;
     get_id_from_url := fun l _ => l;
     get_file_metadata := fun _ _ => inl (HttpError e);
     get_files_by_folder_id := fun _ _ => inr [];
     media := fun _ _ => two_chunks;
     lower := ascii_lower;
     realpath := fun p => p;
     open_error := fun _ _ _ => None |}.

Definition listener (l : pystr) : listener_config :=
  {| link := l; user_id := lit "42"; excluded_extensions := [lit "tmp"];
     _path := lit "/dl" |}.

(** A fresh object: [sa] tells whether service accounts are in use, [count]
    and [number] are the rotations made and allowed. *)
Definition fresh (sa : bool) (count number : nat) (n : pystr) : state :=
  {| use_sa := sa; alt_auth := false; sa_count := count; sa_number := number;
     sa_index := 0; service := Primary; is_cancelled := false; name := n;
     file_processed_bytes := 0; files := []; dirs := []; trace := [] |}.

(** The same with a file already on disk. *)
Definition fresh_with_file (p : pystr) (c : bytes) : state :=
  set_files [(p, c)] (fresh false 0 0 (lit "F")).

(** 300 letters of two bytes each and an extension. *)
Definition long_name : pystr := repeat 233%N 300 ++ lit ".txt".

Definition file_args (n : pystr) : args :=
  {| file_id := lit "id1"; path := lit "/dl"; filename := n;
     mime_type := Some (lit "text/plain"); export := false |}.

(** Every request fails once with a 503 and succeeds when repeated. *)
Definition one_fault_each (n : nat) : script :=
  faulty_script (repeat [backend] n).

(** The answer to [get_media] on a Google Docs document. *)
Definition not_downloadable : http_error :=
  {| status := 403; content_type := lit "application/json; charset=UTF-8";
     content := Reason (lit "fileNotDownloadable");
     message := lit "<HttpError 403 when requesting u returned 'Only files with binary content can be downloaded. Use Export with Docs Editors files.'>" |}.

Definition document_args (n : pystr) : args :=
  {| file_id := lit "id1"; path := lit "/dl"; filename := n;
     mime_type := Some (lit "application/vnd.google-apps.document");
     export := false |}.




End Sample.

(** ** What a transfer may and may not do to the object and the trace *)

(** The events of [evs] are all events of transfers: no callback and no timer
    event is among them. *)
Definition transfer_only (evs : list event) : Prop :=
  forallb (fun ev => negb (is_run_event ev)) evs = true.

(** [st'] is reached from [st] without touching [alt_auth] or [use_sa],
    without clearing the cancellation flag and with transfer events only. *)
Record quiet (st st' : state) : Prop := {
  quiet_alt_auth : alt_auth st' = alt_auth st;
  quiet_use_sa : use_sa st' = use_sa st;
  quiet_cancelled : is_cancelled st = true -> is_cancelled st' = true;
  quiet_trace : exists evs, trace st' = trace st ++ evs /\ transfer_only evs }.

Definition quiet_fun (f : state -> script -> result) : Prop :=
  forall s0 st rs, quiet s0 st -> quiet s0 (final (f st rs)).

(** The callbacks a run has made are either one error report, after which
    the listener is cancelled, or some number of completion reports. *)
Definition reported (evs : list event) (st' : state) : Prop :=
  (exists msg, filter is_callback evs = [OnDownloadError msg]
               /\ is_cancelled st' = true)
  \/ (exists k, filter is_callback evs = repeat OnDownloadComplete k).

(** ** The events of a run *)

(** The text holds neither [<] nor [>]. *)
Definition clean (msg : pystr) : Prop :=
  forallb (fun c => negb (c =? 60)%N && negb (c =? 62)%N) msg = true.

(** The progress timer after the events [evs]: [Some b] tells whether a timer
    is running, [None] that [SetInterval] was called while the timer of an
    earlier call was still running. *)
Fixpoint timer_after (running : bool) (evs : list event) : option bool :=
  match evs with
  | [] => Some running
  | UpdaterStart :: evs' => if running then None else timer_after true evs'
  | UpdaterCancel :: evs' => timer_after false evs'
  | _ :: evs' => timer_after running evs'
  end.

(** What a [finally] block emits. *)
Definition finally_events (fin : list event) : Prop :=
  fin = [UpdaterCancel] \/ fin = [UpdaterCancel; OnDownloadComplete].

(** The events of a call of [download] that does not call itself; the flag
    tells whether the call has ended. *)
Inductive single_pass : bool -> list event -> Prop :=
| pass_none : single_pass false []
| pass_running (q : list event) :
    transfer_only q -> single_pass false (UpdaterStart :: q)
| pass_returned (q fin : list event) :
    transfer_only q -> finally_events fin ->
    single_pass true (UpdaterStart :: q ++ fin)
| pass_failed (q : list event) (msg : pystr) :
    transfer_only q -> clean msg ->
    single_pass true (UpdaterStart :: q ++ [OnDownloadError msg; UpdaterCancel]).

(** The events of any call of [download]. *)
Inductive run_events : bool -> list event -> Prop :=
| run_single (d : bool) (evs : list event) :
    single_pass d evs -> run_events d evs
| run_again (q inner fin : list event) :
    transfer_only q -> single_pass true inner -> finally_events fin ->
    run_events true (UpdaterStart :: q ++ UpdaterCancel :: inner ++ fin)
| run_again_running (q inner : list event) :
    transfer_only q -> single_pass false inner ->
    run_events false (UpdaterStart :: q ++ UpdaterCancel :: inner).

(** The call has ended. *)
Definition is_done (r : result) : bool :=
  match r with
  | Returned _ _ | Raised _ _ _ => true
  | _ => false
  end.

(** ** What a run does to the disk *)

(** [st'] is reached from [st] so that every file is as it was unless it is
    one of [open_now] or a path that names it has been opened on the way,
    and no file and no directory has gone. *)
Record disk_kept (H : helper) (open_now : list pystr) (st st' : state)
  : Prop := {
  kept_content :
    exists evs,
      trace st' = trace st ++ evs
      /\ forall c, ~ In c open_now ->
                   (forall q, In (FileOpen q) evs -> realpath H q <> c) ->
                   fs_get c (files st') = fs_get c (files st);
  kept_files : forall c, isfile c st = true -> isfile c st' = true;
  kept_dirs : forall d, mem d (dirs st) = true -> mem d (dirs st') = true }.

Definition keeps_disk (H : helper) (open_now : list pystr)
    (f : state -> script -> result) : Prop :=
  forall s0 st rs,
    disk_kept H open_now s0 st -> disk_kept H open_now s0 (final (f st rs)).

(** ** Rotations *)

Definition is_switch (ev : event) : bool :=
  match ev with SwitchServiceAccount _ => true | _ => false end.

(** [st'] is reached from [st] with as many rotations as the counter has
    grown by, none of them past the number of accounts and none without
    service accounts in use. *)
Record rotated (st st' : state) : Prop := {
  rot_number : sa_number st' = sa_number st;
  rot_off : use_sa st = false -> use_sa st' = false;
  rot_count :
    exists evs,
      trace st' = trace st ++ evs
      /\ sa_count st' = sa_count st + List.length (filter is_switch evs)
      /\ (filter is_switch evs = []
          \/ (sa_count st' <= sa_number st /\ use_sa st = true)) }.

Definition rotates (f : state -> script -> result) : Prop :=
  forall s0 st rs, rotated s0 st -> rotated s0 (final (f st rs)).

(** ** Runs that are cancelled from the start *)

(** The computation [r], entered in [st] with the script [rs], has made no
    request, recorded no event and written no file, and the flag is set when
    it ends. *)
Definition idle (st : state) (rs : script) (r : result) : Prop :=
  is_cancelled (final r) = true
  /\ trace (final r) = trace st
  /\ files (final r) = files st
  /\ match r with
     | Returned _ rs' | Raised _ _ rs' => rs' = rs
     | _ => True
     end.

(** ** The children of a folder *)








(** ** Where files are opened *)

(** [dir] is [root] or lies below it. *)
Definition within (root dir : pystr) : Prop :=
  dir = root \/ startswith (root ++ lit "/") dir = true.

(** [st'] is reached from [st] with files opened below [root] only. *)
Definition opens_under (root : pystr) (st st' : state) : Prop :=
  exists evs,
    trace st' = trace st ++ evs
    /\ forall p, In (FileOpen p) evs -> startswith (root ++ lit "/") p = true.

Definition opener (root : pystr) (f : state -> script -> result) : Prop :=
  forall s0 st rs, opens_under root s0 st -> opens_under root s0 (final (f st rs)).

(** ** Strings *)

Lemma eqb_refl (s : pystr) : eqb s s = true.
Proof.
  induction s as [|c s IH]; cbn; [reflexivity|].
  now rewrite N.eqb_refl, IH.
Qed.

Lemma eqb_eq (a b : pystr) : eqb a b = true <-> a = b.
Proof.
  split; [|intros ->; apply eqb_refl].
  revert b; induction a as [|x a IH]; intros [|y b]; cbn; try easy.
  intros Hab; apply andb_true_iff in Hab as [Hxy Hab].
  apply N.eqb_eq in Hxy; subst; f_equal; auto.
Qed.



(** ** The file system *)

Lemma fs_get_put (p : pystr) (c : bytes) (fs : list (pystr * bytes)) :
  fs_get p (fs_put p c fs) = Some c.
Proof.
  induction fs as [|[q d] fs IH]; cbn.
  - now rewrite eqb_refl.
  - destruct (eqb p q) eqn:Hpq; cbn; rewrite ?eqb_refl, ?Hpq; auto.
Qed.


Lemma fs_append_get (p : pystr) (c d : bytes) (fs : list (pystr * bytes)) :
  fs_get p fs = Some c -> fs_get p (fs_append p d fs) = Some (c ++ d).
Proof. unfold fs_append; intros ->; apply fs_get_put. Qed.

(** ** Quiet steps *)

Lemma transfer_only_app (xs ys : list event) :
  transfer_only xs -> transfer_only ys -> transfer_only (xs ++ ys).
Proof.
  unfold transfer_only; rewrite forallb_app; intros -> ->; reflexivity.
Qed.

Lemma quiet_refl (st : state) : quiet st st.
Proof.
  split; auto; exists []; split; [now rewrite app_nil_r | reflexivity].
Qed.

Lemma quiet_trans (a b c : state) : quiet a b -> quiet b c -> quiet a c.
Proof.
  intros [A1 A2 A3 (xs & A4 & A5)] [B1 B2 B3 (ys & B4 & B5)]; split.
  - congruence.
  - congruence.
  - auto.
  - exists (xs ++ ys); split; [|now apply transfer_only_app].
    now rewrite B4, A4, app_assoc.
Qed.

(** A step that leaves the four observed components alone, or adds one
    transfer event. *)
Lemma quiet_step (s0 st st' : state) (evs : list event) :
  alt_auth st' = alt_auth st -> use_sa st' = use_sa st ->
  (is_cancelled st = true -> is_cancelled st' = true) ->
  trace st' = trace st ++ evs -> transfer_only evs ->
  quiet s0 st -> quiet s0 st'.
Proof.
  intros E1 E2 E3 E4 E5 Q; apply quiet_trans with st; [assumption|].
  split; auto; now exists evs.
Qed.

Ltac quiet_by evs :=
  let Q := fresh "Q" in
  intros Q; apply (@quiet_step _ _ _ evs) with (6 := Q);
  cbn; rewrite ?app_nil_r; auto; try reflexivity.

Lemma quiet_emit s0 st ev :
  is_run_event ev = false -> quiet s0 st -> quiet s0 (emit ev st).
Proof.
  intros Hev; quiet_by [ev].
  unfold transfer_only; cbn; now rewrite Hev.
Qed.

Lemma quiet_set_is_cancelled s0 st :
  quiet s0 st -> quiet s0 (set_is_cancelled true st).
Proof. quiet_by (@nil event). Qed.

Lemma quiet_flag s0 st (b : bool) :
  quiet s0 st -> quiet s0 (if b then set_is_cancelled true st else st).
Proof. destruct b; auto using quiet_set_is_cancelled. Qed.

Lemma quiet_set_file_processed_bytes s0 st n :
  quiet s0 st -> quiet s0 (set_file_processed_bytes n st).
Proof. quiet_by (@nil event). Qed.

Lemma quiet_set_files s0 st f : quiet s0 st -> quiet s0 (set_files f st).
Proof. quiet_by (@nil event). Qed.

Lemma quiet_set_dirs s0 st d : quiet s0 st -> quiet s0 (set_dirs d st).
Proof. quiet_by (@nil event). Qed.

Lemma quiet_set_name s0 st n : quiet s0 st -> quiet s0 (set_name n st).
Proof. quiet_by (@nil event). Qed.

Lemma quiet_set_rotation s0 st i c :
  quiet s0 st -> quiet s0 (set_rotation i c st).
Proof. quiet_by (@nil event). Qed.

Lemma quiet_set_service s0 st c : quiet s0 st -> quiet s0 (set_service c st).
Proof. quiet_by (@nil event). Qed.

Create HintDb quiet.

#[local] Hint Resolve quiet_refl quiet_emit quiet_set_is_cancelled quiet_flag
  quiet_set_file_processed_bytes quiet_set_files quiet_set_dirs quiet_set_name
  quiet_set_rotation quiet_set_service : quiet.

Lemma quiet_fh_write s0 st p d : quiet s0 st -> quiet s0 (fh_write p d st).
Proof. unfold fh_write; auto with quiet. Qed.

Lemma quiet_fh_close s0 st p : quiet s0 st -> quiet s0 (fh_close p st).
Proof. unfold fh_close; auto with quiet. Qed.

Lemma quiet_open_wb H s0 st p : quiet s0 st -> quiet s0 (opened H p st).
Proof. unfold opened; auto with quiet. Qed.

Lemma quiet_makedirs s0 st p : quiet s0 st -> quiet s0 (makedirs p st).
Proof. unfold makedirs; destruct (mem p (dirs st)); auto with quiet. Qed.

Lemma quiet_track_truncation s0 st ex f :
  quiet s0 st -> quiet s0 (track_truncation ex f st).
Proof.
  unfold track_truncation.
  destruct (255 <? _); [destruct (endswith _ _)|]; auto with quiet.
Qed.

Lemma quiet_switch_service_account s0 st :
  quiet s0 st -> quiet s0 (switch_service_account st).
Proof. unfold switch_service_account; auto with quiet. Qed.

#[local] Hint Resolve quiet_fh_write quiet_fh_close quiet_open_wb
  quiet_makedirs quiet_track_truncation quiet_switch_service_account : quiet.

(** ** Transfers are quiet *)

Section Quiet.

Variable H : helper.
Variable L : listener_config.

Ltac split_ifs :=
  repeat match goal with
    | |- context [if ?b then _ else _] => destruct b eqn:?
    | |- context [match ?x with _ => _ end] => destruct x eqn:?
    end.

Lemma chunk_loop_quiet (self : args -> state -> script -> result) :
  (forall a, quiet_fun (self a)) ->
  forall rs a progress retries, quiet_fun (fun st _ => chunk_loop H self a progress retries st rs).
Proof.
  intros Hself rs; induction rs as [|r rs IH]; intros a progress retries s0 st _ Q.
  - cbn; destruct (is_cancelled st); cbn; auto with quiet.
  - cbn [chunk_loop].
    destruct (is_cancelled st) eqn:Hc; [cbn; auto with quiet|].
    cbv zeta.
    destruct (outcome_of r) as [|e|cls msg].
    + destruct (_ <=? _); [cbn; auto with quiet|].
      apply (IH a (S progress) retries s0 _ []); auto with quiet.
    + destruct (retried_in_place e retries).
      { apply (IH a progress (S retries) s0 _ []); auto with quiet. }
      destruct (is_json e).
      2:{ apply (IH a progress retries s0 _ []); auto with quiet. }
      destruct (content e) as [reason|cls msg]; [|cbn; auto with quiet].
      split_ifs; cbn [final]; auto with quiet;
        apply Hself; auto with quiet.
    + cbn; auto with quiet.
Qed.

Lemma download_file_attempt_quiet (self : args -> state -> script -> result) :
  (forall a, quiet_fun (self a)) ->
  forall a, quiet_fun (download_file_attempt H self a).
Proof.
  intros Hself a s0 st rs Q; unfold download_file_attempt.
  destruct (encode_error _); [exact Q|].
  destruct (is_cancelled _); [cbn; auto with quiet|].
  unfold open_wb; destruct (open_error _ _ _ _); [cbn; auto with quiet|].
  apply (@chunk_loop_quiet self Hself rs _ 0 0 s0 _ []); auto with quiet.
Qed.

Lemma retrying_quiet (f : state -> script -> result) (more : nat) :
  quiet_fun f -> quiet_fun (retrying more f).
Proof.
  intros Hf; induction more as [|k IH]; intros s0 st rs Q; cbn [retrying];
    specialize (Hf s0 st rs Q); destruct (f st rs); auto.
Qed.

Lemma _download_file_quiet (fuel : nat) (a : args) :
  quiet_fun (_download_file H fuel a).
Proof.
  revert a; induction fuel as [|fuel IH]; intros a s0 st rs Q;
    cbn [_download_file]; [cbn; auto|].
  apply retrying_quiet; auto.
  now apply download_file_attempt_quiet.
Qed.

Lemma _download_folder_quiet (fuel : nat) (folder_id dir folder_name : pystr) :
  quiet_fun (_download_folder H L fuel folder_id dir folder_name).
Proof.
  revert folder_id dir folder_name;
    induction fuel as [|fuel IH]; intros folder_id dir folder_name s0 st rs Q;
    cbn [_download_folder]; [cbn; auto|].
  cbv zeta.
  set (st1 := if exists_path _ st then st else _).
  assert (Q1 : quiet s0 st1) by (subst st1; destruct (exists_path _ st); auto with quiet).
  clearbody st1; clear Q st.
  destruct (get_files_by_folder_id _ _ _) as [e|listing]; [cbn; auto|].
  destruct (_ =? 0); [cbn; auto|].
  generalize (sorted_by_name listing); intros items.
  revert st1 rs Q1; induction items as [|it items IHi]; intros st rs Q;
    [cbn; auto|].
  match goal with
  | |- quiet _ (final (match ?r with _ => _ end)) =>
      assert (Qr : quiet s0 (final r)); [|destruct r; auto]
  end.
  - split_ifs; auto; try apply IH; try apply _download_file_quiet; auto.
  - destruct (is_cancelled st0); auto.
Qed.

Lemma try_block_quiet (fuel : nat) (root_id : pystr) :
  quiet_fun (try_block H L fuel root_id).
Proof.
  intros s0 st rs Q; unfold try_block.
  destruct (get_file_metadata _ _ _) as [e|m]; [cbn; auto|].
  destruct (option_eqb _ _).
  - now apply _download_folder_quiet.
  - apply _download_file_quiet; auto with quiet.
Qed.

End Quiet.

(** ** The callbacks of a run *)

Lemma transfer_only_no_callback (evs : list event) :
  transfer_only evs -> filter is_callback evs = [].
Proof.
  unfold transfer_only; induction evs as [|ev evs IH]; cbn; [reflexivity|].
  intros Hall; apply andb_true_iff in Hall as [Hev Hall].
  destruct ev; cbn in *; try discriminate; auto.
Qed.

Lemma filter_error_callback (evs : list event) :
  filter is_error (filter is_callback evs) = filter is_error evs.
Proof.
  induction evs as [|ev evs IH]; cbn; [reflexivity|].
  destruct ev; cbn; congruence.
Qed.

Lemma reported_prefix (t xs evs : list event) (st' : state) :
  filter is_callback xs = [] ->
  trace st' = (t ++ xs) ++ evs -> reported evs st' ->
  exists evs', trace st' = t ++ evs' /\ reported evs' st'.
Proof.
  intros Hxs Ht Hr; exists (xs ++ evs); split; [now rewrite app_assoc|].
  unfold reported in *; now rewrite filter_app, Hxs.
Qed.

Lemma reported_finally (t evs : list event) (st : state) :
  trace st = t ++ evs -> reported evs st ->
  exists evs', trace (finally_block st) = t ++ evs'
               /\ reported evs' (finally_block st).
Proof.
  intros Ht Hr; unfold finally_block; cbn.
  destruct (is_cancelled st) eqn:Hc.
  - exists (evs ++ [UpdaterCancel]); cbn; rewrite Ht, app_assoc; split; auto.
    unfold reported in *; rewrite filter_app; cbn; rewrite app_nil_r; cbn.
    destruct Hr as [(msg & Hm & _) | Hk]; [left; eauto | now right].
  - exists (evs ++ [UpdaterCancel; OnDownloadComplete]); cbn.
    rewrite Ht, <- !app_assoc; split; [reflexivity|].
    destruct Hr as [(msg & _ & Hm) | (k & Hk)]; [congruence|].
    right; exists (S k); rewrite filter_app, Hk; cbn.
    now rewrite <- repeat_cons.
Qed.

Lemma reported_error (t evs : list event) (msg : pystr) (st : state) :
  trace st = t ++ evs -> filter is_callback evs = [] ->
  exists evs', trace (finally_block (report_error msg st)) = t ++ evs'
               /\ reported evs' (finally_block (report_error msg st)).
Proof.
  intros Ht He; exists (evs ++ [OnDownloadError msg; UpdaterCancel]); cbn.
  rewrite Ht, <- !app_assoc; split; [reflexivity|].
  left; exists msg; rewrite filter_app, He; auto.
Qed.

Lemma download_reported (H : helper) (L : listener_config) (fuel : nat) :
  forall st rs,
  exists evs,
    trace (final (download H L fuel st rs)) = trace st ++ evs
    /\ reported evs (final (download H L fuel st rs)).
Proof.
  induction fuel as [|fuel IH]; intros st rs.
  { cbn; exists []; split; [now rewrite app_nil_r | right; now exists 0]. }
  cbn [download]; cbv zeta.
  set (st1 := started st).
  assert (Ht1 : trace st1 = trace st ++ [UpdaterStart]) by reflexivity.
  pose proof (@try_block_quiet H L fuel
                (get_id_from_url H (link L) (user_id L)) st1 st1 rs
                (quiet_refl st1)) as Q.
  destruct (try_block H L fuel _ st1 rs) as [st2 rs2|e st2 rs2|st2|st2];
    cbn [final] in Q; destruct Q as [_ _ _ (evs & Ht2 & Hq)];
    pose proof (transfer_only_no_callback Hq) as Hcb;
    rewrite Ht1 in Ht2.
  - cbn [final].
    destruct (@reported_finally (trace st ++ [UpdaterStart]) evs st2 Ht2)
      as (evs' & Ht' & Hr').
    { right; now exists 0. }
    eapply reported_prefix with (xs := [UpdaterStart]); eauto.
  - assert (Herr : forall msg, exists evs',
               trace (finally_block (report_error msg st2)) = trace st ++ evs'
               /\ reported evs' (finally_block (report_error msg st2))).
    { intros msg.
      destruct (@reported_error (trace st ++ [UpdaterStart]) evs msg st2 Ht2 Hcb)
        as (evs' & Ht' & Hr').
      eapply reported_prefix with (xs := [UpdaterStart]); eauto. }
    destruct (contains _ _); [apply Herr|].
    destruct (contains _ _); [|apply Herr].
    destruct (negb (alt_auth st2) && use_sa st2); [|apply Herr].
    destruct (IH (alt_auth_fallback st2) rs2) as (evi & Hti & Hri).
    set (xs := UpdaterStart :: evs ++ [UpdaterCancel]).
    assert (Hpre : trace (final (download H L fuel (alt_auth_fallback st2) rs2))
                   = (trace st ++ xs) ++ evi).
    { rewrite Hti; subst xs; cbn; rewrite Ht2, <- !app_assoc; cbn.
      now rewrite <- !app_assoc. }
    assert (Hx : filter is_callback xs = []).
    { subst xs; cbn; rewrite filter_app, Hcb; reflexivity. }
    destruct (download H L fuel (alt_auth_fallback st2) rs2)
      as [st3 rs3|e3 st3 rs3|st3|st3]; cbn [final after_retry] in *.
    + destruct (@reported_finally _ evi st3 Hpre Hri) as (evs' & Ht' & Hr').
      eapply reported_prefix; eauto.
    + destruct (@reported_finally _ evi st3 Hpre Hri) as (evs' & Ht' & Hr').
      eapply reported_prefix; eauto.
    + eapply reported_prefix; eauto.
    + eapply reported_prefix; eauto.
  - cbn [final]; exists ([UpdaterStart] ++ evs).
    rewrite Ht2, <- app_assoc; split; auto.
    right; exists 0; cbn; assumption.
  - cbn [final]; exists ([UpdaterStart] ++ evs).
    rewrite Ht2, <- app_assoc; split; auto.
    right; exists 0; cbn; assumption.
Qed.

(** C7.  For every run, whatever the store, the listener and the transport do
    and however far the run gets, the listener's error callback is invoked at
    most once, and no completion callback follows an error callback. *)
Theorem error_callback_once_and_final (H : helper) (L : listener_config)
    (fuel : nat) (st : state) (rs : script) :
  exists evs,
    trace (final (download H L fuel st rs)) = trace st ++ evs
    /\ List.length (filter is_error evs) <= 1
    /\ forall before msg after,
         evs = before ++ OnDownloadError msg :: after ->
         ~ In OnDownloadComplete after.
Proof.
  destruct (download_reported H L fuel st rs) as (evs & Ht & Hr).
  exists evs; split; [assumption|].
  destruct Hr as [(m & Hm & _) | (k & Hk)].
  - split.
    + rewrite <- filter_error_callback, Hm; cbn; lia.
    + intros before msg after -> Hin.
      rewrite filter_app in Hm; cbn in Hm.
      assert (Hc : In OnDownloadComplete (filter is_callback after))
        by (apply filter_In; auto).
      apply (f_equal (@List.length event)) in Hm.
      rewrite length_app in Hm; cbn in Hm.
      destruct (filter is_callback after); [inversion Hc | cbn in Hm; lia].
  - split.
    + rewrite <- filter_error_callback, Hk.
      clear; induction k; cbn; auto.
    + intros before msg after -> _.
      assert (Hin : In (OnDownloadError msg) (repeat OnDownloadComplete k)).
      { rewrite <- Hk; apply filter_In; split; [|reflexivity].
        apply in_or_app; right; now left. }
      apply repeat_spec in Hin; discriminate.
Qed.

(** C10.  The store hides the file from the service accounts: the first run
    fails with "File not found", the fallback runs [download] again, that run
    succeeds and reports completion, and the [finally] block of the first run
    reports completion a second time. *)
Theorem completion_reported_twice :
  filter is_callback
    (trace (final (download Sample.drive_hidden_from_sa
                     (Sample.listener (lit "id1")) 4
                     (Sample.fresh true 0 2 (lit "a.txt"))
                     [delivered; delivered])))
  = [OnDownloadComplete; OnDownloadComplete].
Proof. vm_compute; reflexivity. Qed.

(** ** The not-found fallback *)

Section NotFound.

Variable H : helper.
Variable L : listener_config.

Let root_id : pystr := get_id_from_url H (link L) (user_id L).

Lemma transfer_only_no_run_event (evs : list event) :
  transfer_only evs -> filter is_run_event evs = [].
Proof.
  unfold transfer_only; induction evs as [|ev evs IH]; cbn; [reflexivity|].
  intros Hall; apply andb_true_iff in Hall as [Hev Hall].
  destruct (is_run_event ev); [discriminate | auto].
Qed.

(** The state in which the [try] block fails has the flags of the state the
    run began with. *)
Lemma try_block_flags (fuel : nat) (st : state) (rs : script) :
  alt_auth (final (try_block H L fuel root_id (started st) rs)) = alt_auth st
  /\ use_sa (final (try_block H L fuel root_id (started st) rs)) = use_sa st
  /\ exists evs,
       trace (final (try_block H L fuel root_id (started st) rs))
       = trace st ++ UpdaterStart :: evs
       /\ transfer_only evs.
Proof.
  destruct (@try_block_quiet H L fuel root_id (started st) (started st) rs
              (quiet_refl _)) as [Qa Qu _ (evs & Qt & Qe)].
  repeat split; [exact Qa | exact Qu |].
  exists evs; split; [|assumption].
  rewrite Qt; cbn; now rewrite <- app_assoc.
Qed.

Lemma download_not_found_retry (fuel : nat) (st st1 : state) (rs rs1 : script)
    (e : exn) :
  try_block H L fuel root_id (started st) rs = Raised e st1 rs1 ->
  not_found_text e = true -> use_sa st = true -> alt_auth st = false ->
  download H L (S fuel) st rs
  = after_retry (download H L fuel (alt_auth_fallback st1) rs1).
Proof.
  intros Hb Hn Hu Ha.
  destruct (try_block_flags fuel st rs) as (Fa & Fu & _).
  fold root_id in Hb; rewrite Hb in Fa, Fu; cbn [final] in Fa, Fu.
  unfold not_found_text in Hn; apply andb_true_iff in Hn as [Hq Hf].
  apply negb_true_iff in Hq.
  cbn [download]; cbv zeta; fold root_id; rewrite Hb, Hq, Hf, Fa, Fu, Ha, Hu.
  reflexivity.
Qed.

Lemma download_not_found_fatal (fuel : nat) (st st1 : state) (rs rs1 : script)
    (e : exn) :
  try_block H L fuel root_id (started st) rs = Raised e st1 rs1 ->
  not_found_text e = true -> alt_auth st = true ->
  download H L (S fuel) st rs
  = Returned (finally_block (report_error (lit "File not found!") st1)) rs1.
Proof.
  intros Hb Hn Ha.
  destruct (try_block_flags fuel st rs) as (Fa & _ & _).
  fold root_id in Hb; rewrite Hb in Fa; cbn [final] in Fa.
  unfold not_found_text in Hn; apply andb_true_iff in Hn as [Hq Hf].
  apply negb_true_iff in Hq.
  cbn [download]; cbv zeta; fold root_id; rewrite Hb, Hq, Hf, Fa, Ha.
  reflexivity.
Qed.

(** C2, amended.  When the [try] block fails with a text that contains
    "File not found" and not "downloadQuotaExceeded", in a run that began
    with service accounts in use and the fallback not yet taken, the outcome
    of the run is that of one further call of [download] on the same
    inputs, followed by the [finally] block.  When that call fails in the
    same way it reports "File not found!" and does not call [download]
    again: two runs were started, one error and no completion reported. *)
Theorem not_found_retried_exactly_once (fuel : nat) (st st1 : state)
    (rs rs1 : script) (e : exn) :
  try_block H L (S fuel) root_id (started st) rs = Raised e st1 rs1 ->
  not_found_text e = true -> use_sa st = true -> alt_auth st = false ->
  download H L (S (S fuel)) st rs
  = after_retry (download H L (S fuel) (alt_auth_fallback st1) rs1)
  /\ alt_auth (alt_auth_fallback st1) = true
  /\ forall e2 st2 rs2,
       try_block H L fuel root_id (started (alt_auth_fallback st1)) rs1
       = Raised e2 st2 rs2 ->
       not_found_text e2 = true ->
       exists evs,
         download H L (S (S fuel)) st rs
         = Returned (finally_block
                       (finally_block
                          (report_error (lit "File not found!") st2))) rs2
         /\ trace (final (download H L (S (S fuel)) st rs)) = trace st ++ evs
         /\ filter is_run_event evs
            = [UpdaterStart; UpdaterCancel; UpdaterStart;
               OnDownloadError (lit "File not found!");
               UpdaterCancel; UpdaterCancel].
Proof.
  intros Hb Hn Hu Ha.
  pose proof (@download_not_found_retry _ _ _ _ _ _ Hb Hn Hu Ha) as Hretry.
  split; [exact Hretry|]; split; [reflexivity|].
  intros e2 st2 rs2 Hb2 Hn2.
  assert (Hinner : download H L (S fuel) (alt_auth_fallback st1) rs1
                   = Returned (finally_block
                                 (report_error (lit "File not found!") st2)) rs2).
  { apply download_not_found_fatal with (e := e2); auto. }
  rewrite Hretry, Hinner; cbn [after_retry final].
  destruct (try_block_flags (S fuel) st rs) as (_ & _ & evs1 & Ht1 & Hq1).
  destruct (try_block_flags fuel (alt_auth_fallback st1) rs1)
    as (_ & _ & evs2 & Ht2 & Hq2).
  rewrite Hb in Ht1; rewrite Hb2 in Ht2; cbn [final] in Ht1, Ht2.
  exists (UpdaterStart :: evs1 ++ UpdaterCancel :: UpdaterStart :: evs2
            ++ [OnDownloadError (lit "File not found!");
                UpdaterCancel; UpdaterCancel]).
  split; [reflexivity|]; split.
  - cbn; rewrite Ht2; cbn; rewrite Ht1.
    repeat (rewrite <- ?app_assoc; cbn); reflexivity.
  - cbn [filter is_run_event].
    rewrite filter_app; cbn [filter is_run_event]; rewrite filter_app.
    rewrite (transfer_only_no_run_event Hq1), (transfer_only_no_run_event Hq2).
    reflexivity.
Qed.

(** C3, amended.  When the fallback fires, [download] is run again from a
    state in which the fallback is marked as taken and service accounts are
    switched off, after the progress timer has been cancelled; that run
    authorizes the primary credential. *)
Theorem fallback_switches_to_primary_credential (fuel : nat) (st st1 : state)
    (rs rs1 : script) (e : exn) :
  try_block H L fuel root_id (started st) rs = Raised e st1 rs1 ->
  not_found_text e = true -> use_sa st = true -> alt_auth st = false ->
  download H L (S fuel) st rs
  = after_retry (download H L fuel (alt_auth_fallback st1) rs1)
  /\ alt_auth (alt_auth_fallback st1) = true
  /\ use_sa (alt_auth_fallback st1) = false
  /\ service (started (alt_auth_fallback st1)) = Primary
  /\ trace (started (alt_auth_fallback st1))
     = trace st1 ++ [UpdaterCancel; UpdaterStart].
Proof.
  intros Hb Hn Hu Ha; split; [now apply download_not_found_retry with e|].
  repeat split; cbn; now rewrite <- app_assoc.
Qed.

End NotFound.

(** Witness of C2: a store on which the metadata lookup fails with "File not
    found" under every credential. *)
Lemma not_found_retried_exactly_once_witness :
  filter is_run_event
    (trace (final (download (Sample.drive_failing Sample.not_found)
                     (Sample.listener (lit "id1")) 3
                     (Sample.fresh true 0 2 (lit "a.txt")) [])))
  = [UpdaterStart; UpdaterCancel; UpdaterStart;
     OnDownloadError (lit "File not found!"); UpdaterCancel; UpdaterCancel].
Proof.
  destruct (@not_found_retried_exactly_once
              (Sample.drive_failing Sample.not_found)
              (Sample.listener (lit "id1")) 1
              (Sample.fresh true 0 2 (lit "a.txt")) _ [] _ _
              eq_refl eq_refl eq_refl eq_refl) as (_ & _ & Hsecond).
  destruct (Hsecond _ _ _ eq_refl eq_refl) as (evs & _ & Ht & Hf).
  rewrite Ht; exact Hf.
Defined.

(** Counterexample of C2: the text of the failure contains "File not found"
    and "downloadQuotaExceeded"; service accounts are in use and the fallback
    has not been taken, yet the run is not repeated and reports a quota
    error. *)
Lemma quota_text_preempts_not_found :
  contains (lit "File not found")
    (failure_text (HttpError Sample.quota_and_not_found)) = true
  /\ filter is_run_event
       (trace (final (download (Sample.drive_failing Sample.quota_and_not_found)
                        (Sample.listener (lit "id1")) 3
                        (Sample.fresh true 0 2 (lit "a.txt")) [])))
     = [UpdaterStart; OnDownloadError (lit "Download Quota Exceeded.");
        UpdaterCancel].
Proof. split; vm_compute; reflexivity. Qed.

(** Witness of C3: the store hides the file from the service accounts. *)
Lemma fallback_switches_to_primary_credential_witness :
  download Sample.drive_hidden_from_sa (Sample.listener (lit "id1")) 4
    (Sample.fresh true 0 2 (lit "a.txt")) [delivered; delivered]
  = after_retry
      (download Sample.drive_hidden_from_sa (Sample.listener (lit "id1")) 3
         (alt_auth_fallback
            (started (Sample.fresh true 0 2 (lit "a.txt"))))
         [delivered; delivered]).
Proof.
  exact (proj1 (@fallback_switches_to_primary_credential
                  Sample.drive_hidden_from_sa (Sample.listener (lit "id1")) 3
                  (Sample.fresh true 0 2 (lit "a.txt")) _
                  [delivered; delivered] _ _
                  eq_refl eq_refl eq_refl eq_refl)).
Defined.

(** Counterexample of C3: after the fallback has fired (two runs were
    started), service accounts are off and the credential in use is the
    primary one. *)
Lemma fallback_leaves_service_accounts :
  let st := final (download Sample.drive_hidden_from_sa
                     (Sample.listener (lit "id1")) 4
                     (Sample.fresh true 0 2 (lit "a.txt"))
                     [delivered; delivered]) in
  List.length (filter is_start (trace st)) = 2
  /\ use_sa st = false /\ service st = Primary.
Proof. vm_compute; auto. Qed.

(** ** File names, existing files and undecodable errors *)

(** C4.  A name of 300 two-byte letters and the extension [.txt] is 604 bytes
    long.  The name the file is opened under keeps the extension and 245
    letters: it is 494 bytes long. *)
Theorem long_multibyte_name_stays_long :
  let p := prepared_filename false Sample.long_name in
  encoded_len Sample.long_name = 604
  /\ p = repeat 233%N 245 ++ lit ".txt"
  /\ encoded_len p = 494
  /\ trace (final (_download_file (Sample.drive Sample.two_chunks) 1
                     (Sample.file_args Sample.long_name)
                     (Sample.fresh false 0 0 Sample.long_name)
                     [delivered; delivered]))
     = [FileOpen (file_path (lit "/dl") p);
        NextChunk (lit "id1") false 0; NextChunk (lit "id1") false 1].
Proof. vm_compute; auto. Qed.

(** C5.  The folder [F] holds the file [a.txt], which is on disk already as
    [/dl/F/a.txt].  The test of line 89 looks for [/dl/Fa.txt], so the file is
    opened again, truncated and fetched. *)
Theorem existing_file_fetched_again :
  let st := Sample.fresh_with_file (lit "/dl/F/a.txt") [Byte.x00] in
  let r := download (Sample.drive Sample.two_chunks)
             (Sample.listener (lit "root")) 4 st [delivered; delivered] in
  isfile (lit "/dl/F/a.txt") st = true
  /\ trace (final r)
     = [UpdaterStart; FileOpen (lit "/dl/F/a.txt");
        NextChunk (lit "id2") false 0; NextChunk (lit "id2") false 1;
        UpdaterCancel; OnDownloadComplete]
  /\ fs_get (lit "/dl/F/a.txt") (files (final r))
     = Some [Byte.x68; Byte.x65; Byte.x79].
Proof. vm_compute; auto. Qed.

(** An error that is not retried in place and has no JSON body leaves the
    loop as it was: the next iteration asks for the same chunk. *)
Lemma non_json_error_ignored (H : helper)
    (self : args -> state -> script -> result) (a : args)
    (progress retries : nat) (st : state) (e : http_error) (rs : script) :
  is_cancelled st = false ->
  retried_in_place e retries = false -> is_json e = false ->
  chunk_loop H self a progress retries st (failing e :: rs)
  = chunk_loop H self a progress retries
      (emit (NextChunk (file_id a) (export a) progress) st) rs.
Proof.
  intros Hc Hr Hj; unfold failing.
  cbn [chunk_loop outcome_of cancel_set]; rewrite Hc, Hr, Hj; reflexivity.
Qed.

(** C6.  A 403 answer with an HTML body is not raised: the loop asks for
    chunk 0 again and the transfer completes.  A JSON body that [eval] does
    not accept makes the three attempts end in the [NameError] of [eval]. *)
Theorem undecodable_errors_not_surfaced :
  (let r := _download_file (Sample.drive Sample.two_chunks) 1
              (Sample.file_args (lit "a.txt"))
              (Sample.fresh false 0 0 (lit "a.txt"))
              [failing Sample.html_forbidden; delivered; delivered] in
   trace (final r)
   = [FileOpen (lit "/dl/a.txt"); NextChunk (lit "id1") false 0;
      NextChunk (lit "id1") false 0; NextChunk (lit "id1") false 1]
   /\ exists st, r = Returned st [])
  /\ exists st,
       _download_file (Sample.drive Sample.two_chunks) 1
         (Sample.file_args (lit "a.txt"))
         (Sample.fresh false 0 0 (lit "a.txt"))
         [failing Sample.unparsable; failing Sample.unparsable;
          failing Sample.unparsable]
       = Raised (RetryError
                   (PyError (lit "NameError")
                      (lit "name 'null' is not defined"))) st [].
Proof.
  split; [split; [vm_compute; reflexivity | eexists; vm_compute; reflexivity]|].
  eexists; vm_compute; reflexivity.
Qed.

(** ** Transient errors *)

Lemma emits_trace (evs : list event) (st : state) :
  trace (emits evs st) = trace st ++ evs.
Proof.
  revert st; induction evs as [|ev evs IH]; intros st; cbn.
  - now rewrite app_nil_r.
  - unfold emits in IH; rewrite IH; cbn; now rewrite <- app_assoc.
Qed.

Lemma emits_same (evs : list event) (st : state) :
  files (emits evs st) = files st
  /\ is_cancelled (emits evs st) = is_cancelled st.
Proof.
  revert st; induction evs as [|ev evs IH]; intros st; cbn; [auto|].
  unfold emits in IH; destruct (IH (emit ev st)) as [-> ->]; auto.
Qed.

Section Transient.

Variable H : helper.
Variable self : args -> state -> script -> result.
Variable a : args.

Let chunks : list bytes := media H (export a) (file_id a).
Let request (i : nat) : event := NextChunk (file_id a) (export a) i.

(** The errors met while fetching one chunk: each is retried in place. *)
Lemma chunk_loop_retries (progress : nat) (tail : script) :
  forall (es : list http_error) (retries : nat) (st : state),
    is_cancelled st = false ->
    Forall transient es ->
    retries + List.length es <= retry_ceiling ->
    chunk_loop H self a progress retries st (map failing es ++ tail)
    = chunk_loop H self a progress (retries + List.length es)
        (emits (repeat (request progress) (List.length es)) st) tail.
Proof.
  induction es as [|e es IH]; intros retries st Hc Ht Hr.
  - cbn; now rewrite Nat.add_0_r.
  - inversion Ht as [|? ? He Hes]; subst; cbn [List.length] in Hr.
    cbn [map app]; unfold failing at 1.
    cbn [chunk_loop outcome_of cancel_set]; rewrite Hc.
    unfold retried_in_place; rewrite He.
    replace (retries <? retry_ceiling) with true
      by (symmetry; apply Nat.ltb_lt; lia).
    cbn [andb]; rewrite IH; auto; [|lia].
    cbn [List.length repeat emits fold_left].
    now rewrite Nat.add_succ_r.
Qed.

(** A transfer whose chunk fetches fail with transient errors, ten at most
    in all, and then succeed. *)
Lemma chunk_loop_faulty (rest : script) :
  forall (faults : list (list http_error)) (progress retries : nat)
         (st : state),
    is_cancelled st = false ->
    faults <> [] ->
    progress + List.length faults = fetches chunks ->
    Forall (Forall transient) faults ->
    retries + List.length (List.concat faults) <= retry_ceiling ->
    exists st',
      chunk_loop H self a progress retries st (faulty_script faults ++ rest)
      = Returned st' rest
      /\ trace st' = trace st ++ requests_of (file_id a) (export a) faults progress
      /\ files st'
         = write_chunks (realpath H (file_path (path a) (filename a)))
             chunks progress (List.length faults) (files st).
Proof.
  induction faults as [|es faults IH]; intros progress retries st Hc Hne Hn Ht Hr;
    [contradiction|].
  inversion Ht as [|? ? Hes Hfs]; subst.
  cbn [List.concat] in Hr; rewrite length_app in Hr.
  cbn [faulty_script flat_map]; rewrite <- !app_assoc.
  rewrite chunk_loop_retries; auto; [|lia].
  set (st1 := emits (repeat (request progress) (List.length es)) st).
  assert (Hc1 : is_cancelled st1 = false)
    by (subst st1; now rewrite (proj2 (emits_same _ _))).
  assert (Hf1 : files st1 = files st) by apply emits_same.
  assert (Ht1 : trace st1 = trace st ++ repeat (request progress) (List.length es))
    by apply emits_trace.
  cbn [app]; unfold delivered at 1.
  cbn [chunk_loop outcome_of cancel_set]; rewrite Hc1; fold chunks.
  unfold fetches in Hn.
  destruct faults as [|es' faults]; cbn [List.length] in Hn.
  - replace (List.length chunks <=? S progress) with true
      by (symmetry; apply Nat.leb_le; lia).
    eexists; split; [reflexivity|]; cbn; split.
    + rewrite Ht1, app_nil_r, <- app_assoc.
      f_equal; fold (request progress).
      now rewrite <- repeat_cons.
    + now rewrite Hf1.
  - replace (List.length chunks <=? S progress) with false
      by (symmetry; apply Nat.leb_gt; lia).
    edestruct (IH (S progress) (retries + List.length es)) as (st' & Hrun & Htr & Hfi);
      [| | | exact Hfs | | ].
    5:{ exists st'; split; [unfold faulty_script in Hrun; exact Hrun|]; split.
        - rewrite Htr; cbn; rewrite Ht1, <- !app_assoc.
          f_equal; fold (request progress).
          cbn [requests_of].
          change (NextChunk (file_id a) (export a) progress) with (request progress).
          rewrite app_assoc, <- repeat_cons; reflexivity.
        - rewrite Hfi; cbn; now rewrite Hf1. }
    + cbn; exact Hc1.
    + discriminate.
    + unfold fetches; cbn [List.length]; lia.
    + lia.
Qed.

End Transient.

(** ** The file a transfer leaves *)

Lemma nth_skipn_concat (l : list bytes) :
  forall i n,
    nth i l [] ++ List.concat (firstn n (skipn (S i) l))
    = List.concat (firstn (S n) (skipn i l)).
Proof.
  induction l as [|x l IH]; intros i n.
  - destruct i; cbn; rewrite ?firstn_nil; reflexivity.
  - destruct i as [|i]; [reflexivity|].
    cbn [nth skipn]; apply IH.
Qed.

Lemma write_chunks_get (p : pystr) (chunks : list bytes) :
  forall n i fs c,
    fs_get p fs = Some c ->
    fs_get p (write_chunks p chunks i n fs)
    = Some (c ++ List.concat (firstn n (skipn i chunks))).
Proof.
  induction n as [|n IH]; intros i fs c Hget; cbn [write_chunks].
  - cbn; now rewrite app_nil_r.
  - rewrite IH with (c := c ++ nth i chunks []).
    + now rewrite <- app_assoc, nth_skipn_concat.
    + now apply fs_append_get.
Qed.

Lemma track_truncation_same (ex : bool) (f : pystr) (st : state) :
  is_cancelled (track_truncation ex f st) = is_cancelled st
  /\ trace (track_truncation ex f st) = trace st
  /\ files (track_truncation ex f st) = files st.
Proof.
  unfold track_truncation.
  destruct (255 <? _); [destruct (endswith _ _)|]; auto.
Qed.

Lemma track_truncation_dirs (ex : bool) (f : pystr) (st : state) :
  dirs (track_truncation ex f st) = dirs st.
Proof.
  unfold track_truncation.
  destruct (255 <? _); [destruct (endswith _ _)|]; auto.
Qed.

Lemma retrying_returned (more : nat) (f : state -> script -> result)
    (st st' : state) (rs rs' : script) :
  f st rs = Returned st' rs' -> retrying more f st rs = Returned st' rs'.
Proof. intros Hf; destruct more; cbn [retrying]; now rewrite Hf. Qed.

Lemma can_open_same (H : helper) (a : args) (st st' : state) :
  files st' = files st -> dirs st' = dirs st ->
  can_open H a st -> can_open H a st'.
Proof. unfold can_open; intros -> ->; auto. Qed.


(** An attempt that gets its file goes on to the loop. *)
Lemma download_file_attempt_opened (H : helper)
    (self : args -> state -> script -> result) (a : args) (st : state)
    (rs : script) :
  is_cancelled st = false -> can_open H a st ->
  download_file_attempt H self a st rs
  = chunk_loop H self
      (with_filename (prepared_filename (export a) (filename a)) a) 0 0
      (opened H (file_path (path a)
                   (prepared_filename (export a) (filename a)))
         (track_truncation (export a) (filename a) st)) rs.
Proof.
  intros Hc [He Ho].
  destruct (track_truncation_same (export a) (filename a) st) as (Tc & _ & Tf).
  unfold download_file_attempt, open_wb.
  now rewrite He, Tc, Hc, Tf, track_truncation_dirs, Ho.
Qed.

(** One attempt on a script of transient errors within the ceiling. *)
Lemma download_file_attempt_faulty (H : helper)
    (self : args -> state -> script -> result) (a : args) (st : state)
    (faults : list (list http_error)) (rest : script) :
  is_cancelled st = false -> can_open H a st ->
  List.length faults = fetches (media H (export a) (file_id a)) ->
  Forall (Forall transient) faults ->
  List.length (List.concat faults) <= retry_ceiling ->
  let p := file_path (path a) (prepared_filename (export a) (filename a)) in
  exists st',
    download_file_attempt H self a st (faulty_script faults ++ rest)
    = Returned st' rest
    /\ trace st'
       = trace st ++ FileOpen p :: requests_of (file_id a) (export a) faults 0
    /\ files st'
       = write_chunks (realpath H p) (media H (export a) (file_id a)) 0
           (List.length faults) (fs_put (realpath H p) [] (files st)).
Proof.
  intros Hc Hopen Hn Ht Hr p.
  destruct (track_truncation_same (export a) (filename a) st) as (Tc & Tt & Tf).
  rewrite download_file_attempt_opened by assumption.
  set (a' := with_filename (prepared_filename (export a) (filename a)) a).
  set (st0 := opened _ _ _).
  destruct (@chunk_loop_faulty H self a' rest faults 0 0 st0)
    as (st' & Hrun & Htr & Hfi); auto.
  - subst st0; cbn; now rewrite Tc.
  - intros ->; unfold fetches in Hn; cbn [List.length] in Hn; lia.
  - exists st'; split; [exact Hrun|]; split.
    + rewrite Htr; subst st0; cbn; rewrite Tt, <- app_assoc; reflexivity.
    + rewrite Hfi; subst st0; cbn; now rewrite Tf.
Qed.

(** C9, amended.  When the destination file can be opened (the name can be
    encoded and the operating system does not refuse the path) and the
    fetches of a transfer fail with transient statuses ten times at most in
    all before they succeed, the transfer returns and leaves the file system
    a transfer without errors leaves: the file holds the chunks of the
    object in order.  The file is opened once and never closed, and a chunk
    whose fetch failed is asked for again, the position staying where it
    was. *)
Theorem transient_errors_within_ceiling_harmless (H : helper) (fuel : nat)
    (a : args) (st : state) (faults : list (list http_error))
    (rest : script) :
  is_cancelled st = false -> can_open H a st ->
  List.length faults = fetches (media H (export a) (file_id a)) ->
  Forall (Forall transient) faults ->
  List.length (List.concat faults) <= retry_ceiling ->
  let p := file_path (path a) (prepared_filename (export a) (filename a)) in
  exists st' st'',
    _download_file H (S fuel) a st (faulty_script faults ++ rest)
    = Returned st' rest
    /\ _download_file H (S fuel) a st
         (faulty_script (map (fun _ => []) faults) ++ rest)
       = Returned st'' rest
    /\ files st' = files st''
    /\ fs_get (realpath H p) (files st')
       = Some (List.concat (media H (export a) (file_id a)))
    /\ trace st'
       = trace st ++ FileOpen p :: requests_of (file_id a) (export a) faults 0.
Proof.
  intros Hc Hopen Hn Ht Hr p.
  destruct (@download_file_attempt_faulty H (_download_file H fuel) a st
              faults rest Hc Hopen Hn Ht Hr) as (st' & Hrun & Htr & Hfi).
  destruct (@download_file_attempt_faulty H (_download_file H fuel) a st
              (map (fun _ => []) faults) rest Hc Hopen)
    as (st'' & Hrun' & _ & Hfi').
  - now rewrite length_map.
  - clear; induction faults; cbn; auto.
  - replace (List.concat (map (fun _ => []) faults)) with (@nil http_error);
      [cbn; lia|].
    clear; induction faults; cbn; auto.
  - exists st', st''; cbn [_download_file].
    rewrite (retrying_returned _ _ _ _ Hrun), (retrying_returned _ _ _ _ Hrun').
    repeat split; auto.
    + rewrite Hfi, Hfi', length_map; reflexivity.
    + rewrite Hfi, write_chunks_get with (c := []) by apply fs_get_put.
      rewrite Hn; cbn [skipn app]; f_equal; f_equal.
      apply firstn_all2; unfold fetches; lia.
Qed.

(** Witness of C9: the first chunk of two is fetched at the fourth request,
    the second at the second. *)
Lemma transient_errors_within_ceiling_harmless_witness :
  exists st' st'',
    _download_file (Sample.drive Sample.two_chunks) 1
      (Sample.file_args (lit "a.txt")) (Sample.fresh false 0 0 (lit "a.txt"))
      (faulty_script
         [[Sample.backend; Sample.backend; Sample.backend]; [Sample.backend]]
       ++ [])
    = Returned st' []
    /\ _download_file (Sample.drive Sample.two_chunks) 1
         (Sample.file_args (lit "a.txt"))
         (Sample.fresh false 0 0 (lit "a.txt"))
         (faulty_script [[]; []] ++ [])
       = Returned st'' []
    /\ files st' = files st''
    /\ fs_get (lit "/dl/a.txt") (files st')
       = Some [Byte.x68; Byte.x65; Byte.x79]
    /\ trace st'
       = [FileOpen (lit "/dl/a.txt");
          NextChunk (lit "id1") false 0; NextChunk (lit "id1") false 0;
          NextChunk (lit "id1") false 0; NextChunk (lit "id1") false 0;
          NextChunk (lit "id1") false 1; NextChunk (lit "id1") false 1].
Proof.
  apply (@transient_errors_within_ceiling_harmless
           (Sample.drive Sample.two_chunks) 0
           (Sample.file_args (lit "a.txt"))
           (Sample.fresh false 0 0 (lit "a.txt"))
           [[Sample.backend; Sample.backend; Sample.backend]; [Sample.backend]]
           []).
  - reflexivity.
  - split; reflexivity.
  - reflexivity.
  - repeat constructor.
  - cbn; unfold retry_ceiling; lia.
Defined.

(** Counterexample of C9: an object of twelve chunks, every request failing
    once with a 503 and succeeding when repeated.  The counter of line 129 is
    not reset, so each attempt meets its eleventh error, and after the third
    attempt the transfer has failed with eleven of the twelve bytes on
    disk. *)
Lemma one_failure_per_fetch_fails_transfer :
  let r := _download_file (Sample.drive Sample.twelve_chunks) 1
             (Sample.file_args (lit "a.txt"))
             (Sample.fresh false 0 0 (lit "a.txt"))
             (Sample.one_fault_each 33) in
  (exists st, r = Raised (RetryError (HttpError Sample.backend)) st [delivered])
  /\ fs_get (lit "/dl/a.txt") (files (final r)) = Some (repeat Byte.x2a 11)
  /\ List.concat Sample.twelve_chunks = repeat Byte.x2a 12.
Proof.
  split; [eexists; vm_compute; reflexivity|].
  split; vm_compute; reflexivity.
Qed.

(** ** Cancellation *)

Section Cancellation.

Variable H : helper.
Variable self : args -> state -> script -> result.
Variable a : args.

Let chunks : list bytes := media H (export a) (file_id a).
Let request (i : nat) : event := NextChunk (file_id a) (export a) i.




End Cancellation.

(** With the flag set, a call of [_download_file] opens no file and makes no
    request: it returns at line 125, unless line 118 has raised. *)
Lemma _download_file_cancelled (H : helper) (fuel : nat) (a : args)
    (st : state) (rs : script) :
  is_cancelled st = true ->
  _download_file H (S fuel) a st rs
  = match encode_error (requested_filename (export a) (filename a)) with
    | Some e => Raised (RetryError e) st rs
    | None => Returned (track_truncation (export a) (filename a) st) rs
    end.
Proof.
  intros Hc; cbn [_download_file]; unfold stop_after_attempt.
  cbn [Nat.sub retrying]; unfold download_file_attempt.
  destruct (encode_error _); [reflexivity|].
  now rewrite (proj1 (track_truncation_same _ _ _)), Hc.
Qed.



(** ** Quota errors *)

Lemma track_truncation_auth (ex : bool) (f : pystr) (st : state) :
  use_sa (track_truncation ex f st) = use_sa st
  /\ sa_count (track_truncation ex f st) = sa_count st
  /\ sa_number (track_truncation ex f st) = sa_number st.
Proof.
  unfold track_truncation.
  destruct (255 <? _); [destruct (endswith _ _)|]; auto.
Qed.

Section Quota.

Variable H : helper.


End Quota.






(** ** Fuel *)

Lemma bounded_mono (n m : nat) (r : result) :
  n <= m -> bounded n r -> bounded m r.
Proof. destruct r; cbn; auto; lia. Qed.

Section Fuel.

Variable H : helper.
Variable self : args -> state -> script -> result.

Lemma chunk_loop_bounded :
  forall (rs : script) (a : args) (progress retries : nat) (st : state),
    (forall a' st' rs', List.length rs' < List.length rs ->
                        bounded (List.length rs') (self a' st' rs')) ->
    bounded (List.length rs) (chunk_loop H self a progress retries st rs).
Proof.
  induction rs as [|r rs IH]; intros a progress retries st Hself.
  - cbn; destruct (is_cancelled st); cbn; auto.
  - assert (Htail : forall a' p' n' st',
               bounded (List.length (r :: rs))
                 (chunk_loop H self a' p' n' st' rs)).
    { intros; apply bounded_mono with (List.length rs); [cbn; lia|].
      apply IH; intros; apply Hself; cbn; lia. }
    assert (Hcall : forall a' st',
               bounded (List.length (r :: rs)) (self a' st' rs)).
    { intros; apply bounded_mono with (List.length rs); [cbn; lia|].
      apply Hself; cbn; lia. }
    cbn [chunk_loop]; destruct (is_cancelled st); [cbn; lia|]; cbv zeta.
    destruct (outcome_of r) as [|e|cls msg]; [| |cbn; lia].
    + destruct (_ <=? _); [cbn; lia | apply Htail].
    + destruct (retried_in_place e retries); [apply Htail|].
      destruct (is_json e); [|apply Htail].
      destruct (content e) as [reason|cls msg]; [|cbn; lia].
      repeat match goal with
        | |- context [if ?b then _ else _] => destruct b
        | |- context [match ?x with _ => _ end] => destruct x
        end; try apply Hcall; cbn; lia.
Qed.

Lemma download_file_attempt_bounded (a : args) (st : state) (rs : script) :
  (forall a' st' rs', List.length rs' < List.length rs ->
                      bounded (List.length rs') (self a' st' rs')) ->
  bounded (List.length rs) (download_file_attempt H self a st rs).
Proof.
  intros Hself; unfold download_file_attempt.
  destruct (encode_error _); [cbn; lia|].
  destruct (is_cancelled _); [cbn; lia|].
  destruct (open_wb _ _ _); [cbn; lia | now apply chunk_loop_bounded].
Qed.

End Fuel.

Lemma retrying_bounded (f : state -> script -> result) (n more : nat) :
  (forall st rs, List.length rs <= n -> bounded (List.length rs) (f st rs)) ->
  forall st rs, List.length rs <= n ->
                bounded (List.length rs) (retrying more f st rs).
Proof.
  intros Hf; induction more as [|k IH]; intros st rs Hn; cbn [retrying];
    pose proof (Hf st rs Hn) as Hb;
    destruct (f st rs) as [st' rs'|e st' rs'|st'|st']; cbn in *; auto.
  apply bounded_mono with (List.length rs'); [lia | apply IH; lia].
Qed.

(** X18 ([_download_file], lines 130-173): every call the method makes to
    itself follows a chunk request of the calling attempt, so the calls are
    never nested deeper than there are answered requests: given more levels
    than the script has responses, the method returns, raises or waits for
    the transport, and what it leaves of the script is a part of what it was
    given. *)
Lemma _download_file_enough_fuel (H : helper) :
  forall (fuel : nat) (a : args) (st : state) (rs : script),
    List.length rs < fuel ->
    bounded (List.length rs) (_download_file H fuel a st rs).
Proof.
  induction fuel as [|fuel IH]; intros a st rs Hlen; [lia|].
  cbn [_download_file].
  apply retrying_bounded with (n := fuel); [|lia].
  intros st' rs' Hn; apply download_file_attempt_bounded.
  intros; apply IH; lia.
Qed.

(** ** More on the length of file names *)

Lemma encoded_len_app (x y : pystr) :
  encoded_len (x ++ y) = encoded_len x + encoded_len y.
Proof. induction x as [|c x IH]; cbn; [reflexivity | rewrite IH; lia]. Qed.

Lemma encoded_len_firstn_le (n : nat) (s : pystr) :
  encoded_len (firstn n s) <= encoded_len s.
Proof.
  revert n; induction s as [|c s IH]; intros [|n]; cbn; try lia.
  specialize (IH n); lia.
Qed.

Lemma encoded_len_ascii (s : pystr) :
  Forall (fun c => (c < 128)%N) s -> encoded_len s = List.length s.
Proof.
  induction 1 as [|c s Hc _ IH]; cbn [encoded_len List.length]; [reflexivity|].
  unfold utf8_width; apply N.ltb_lt in Hc; rewrite Hc, IH; reflexivity.
Qed.

Lemma encoded_len_wide (s : pystr) :
  Forall (fun c => (128 <= c)%N) s -> 2 * List.length s <= encoded_len s.
Proof.
  induction 1 as [|c s Hc _ IH]; cbn [encoded_len List.length]; [lia|].
  unfold utf8_width; apply N.ltb_ge in Hc; rewrite Hc.
  destruct (c <? 2048)%N; [|destruct (c <? 65536)%N]; lia.
Qed.

Lemma Forall_skipn_ascii (n : nat) (s : pystr) :
  Forall (fun c => (c < 128)%N) s -> Forall (fun c => (c < 128)%N) (skipn n s).
Proof.
  intros Hs; revert n; induction Hs as [|c s Hc Hs IH]; intros [|n]; cbn; auto.
Qed.

Lemma Forall_firstn_ascii (n : nat) (s : pystr) :
  Forall (fun c => (c < 128)%N) s -> Forall (fun c => (c < 128)%N) (firstn n s).
Proof.
  intros Hs; revert n; induction Hs as [|c s Hc Hs IH]; intros [|n]; cbn; auto.
Qed.

Lemma splitext_ascii (p : pystr) :
  Forall (fun c => (c < 128)%N) p ->
  Forall (fun c => (c < 128)%N) (snd (splitext p)).
Proof.
  intros Hp; unfold splitext.
  destruct (rfind dot p) as [d|]; [|constructor].
  destruct (_ && _); cbn; [now apply Forall_skipn_ascii | constructor].
Qed.

(** X11 ([_download_file], lines 118-120): where the cut of line 120 does
    fit: the name a file is opened under takes 255 bytes at most when the
    requested name has one-byte characters only and an extension of ten
    characters at most. *)
Lemma prepared_filename_ascii_fits (ex : bool) (filename : pystr) :
  Forall (fun c => (c < 128)%N) (requested_filename ex filename) ->
  List.length (snd (splitext (requested_filename ex filename))) <= 10 ->
  encoded_len (prepared_filename ex filename) <= 255.
Proof.
  intros Ha Hext.
  change (prepared_filename ex filename)
    with (if 255 <? encoded_len (requested_filename ex filename)
          then firstn 245 (requested_filename ex filename)
                 ++ snd (splitext (requested_filename ex filename))
          else requested_filename ex filename).
  destruct (Nat.ltb_spec 255 (encoded_len (requested_filename ex filename)));
    [|assumption].
  rewrite encoded_len_app.
  rewrite (encoded_len_ascii (Forall_firstn_ascii 245 Ha)).
  rewrite (encoded_len_ascii (splitext_ascii Ha)).
  pose proof (firstn_le_length 245 (requested_filename ex filename)); lia.
Qed.

(** X12 ([_download_file], lines 118-120): where it does not: when the
    requested name has 245 characters or more and the first 245 take two
    bytes or more each, the name the file is opened under is longer than 255
    bytes, whatever the extension. *)
Lemma prepared_filename_wide_overflows (ex : bool) (filename : pystr) :
  Forall (fun c => (128 <= c)%N) (firstn 245 (requested_filename ex filename)) ->
  245 <= List.length (requested_filename ex filename) ->
  255 < encoded_len (prepared_filename ex filename).
Proof.
  intros Hw Hlen.
  pose proof (encoded_len_wide Hw) as Hwide.
  rewrite length_firstn, Nat.min_l in Hwide by assumption.
  pose proof (encoded_len_firstn_le 245 (requested_filename ex filename)).
  change (prepared_filename ex filename)
    with (if 255 <? encoded_len (requested_filename ex filename)
          then firstn 245 (requested_filename ex filename)
                 ++ snd (splitext (requested_filename ex filename))
          else requested_filename ex filename).
  destruct (Nat.ltb_spec 255 (encoded_len (requested_filename ex filename)));
    [rewrite encoded_len_app|]; lia.
Qed.

(** ** More on errors the loop does not classify *)

(** A JSON body that cannot be evaluated: the exception of [eval] leaves the
    method. *)
Lemma parse_failure_leaves_method (H : helper)
    (self : args -> state -> script -> result) (a : args)
    (progress retries : nat) (st : state) (e : http_error)
    (cls msg : pystr) (rs : script) :
  is_cancelled st = false ->
  retried_in_place e retries = false -> is_json e = true ->
  content e = ParseFailed cls msg ->
  chunk_loop H self a progress retries st (failing e :: rs)
  = Raised (PyError cls msg)
      (emit (NextChunk (file_id a) (export a) progress) st) rs.
Proof.
  intros Hc Hr Hj Hp; unfold failing.
  cbn [chunk_loop outcome_of cancel_set]; rewrite Hc, Hr, Hj, Hp; reflexivity.
Qed.

(** ** More on the completion callback *)

Lemma finally_block_completes (st : state) :
  is_cancelled (finally_block st) = false ->
  trace (finally_block st) = trace st ++ [UpdaterCancel; OnDownloadComplete].
Proof.
  unfold finally_block; cbn; destruct (is_cancelled st) eqn:Hc; cbn.
  - congruence.
  - intros _; now rewrite <- app_assoc.
Qed.

(** A run that returns with the listener not cancelled has reported
    completion at its end. *)
Lemma download_returned_completes (H : helper) (L : listener_config)
    (fuel : nat) (st st' : state) (rs rs' : script) :
  download H L fuel st rs = Returned st' rs' ->
  is_cancelled st' = false ->
  exists t, trace st' = t ++ [UpdaterCancel; OnDownloadComplete].
Proof.
  destruct fuel as [|fuel]; [discriminate|].
  cbn [download]; cbv zeta.
  assert (Hfin : forall X r, Returned (finally_block X) r = Returned st' rs' ->
                 is_cancelled st' = false ->
                 exists t, trace st' = t ++ [UpdaterCancel; OnDownloadComplete]).
  { intros X r Heq Hc; inversion Heq; subst.
    eexists; now apply finally_block_completes. }
  destruct (try_block _ _ _ _ _ _) as [s r|e s r|s|s]; try discriminate;
    [apply Hfin|].
  destruct (contains _ _); [apply Hfin|].
  destruct (contains _ _); [|apply Hfin].
  destruct (_ && _); [|apply Hfin].
  destruct (download _ _ _ _ _) as [s' r'|e' s' r'|s'|s']; cbn [after_retry];
    try discriminate.
  apply Hfin.
Qed.

(** X17 ([download], lines 53-66): whenever the fallback fires and the run it
    starts returns with the listener not cancelled, completion is reported
    by that run and once more by the [finally] block of the run that started
    it. *)
Lemma fallback_success_reports_twice (H : helper) (L : listener_config)
    (fuel : nat) (st st1 st3 : state) (rs rs1 rs3 : script) (e : exn) :
  try_block H L fuel (get_id_from_url H (link L) (user_id L)) (started st) rs
  = Raised e st1 rs1 ->
  not_found_text e = true -> use_sa st = true -> alt_auth st = false ->
  download H L fuel (alt_auth_fallback st1) rs1 = Returned st3 rs3 ->
  is_cancelled st3 = false ->
  exists t,
    trace (final (download H L (S fuel) st rs))
    = t ++ [UpdaterCancel; OnDownloadComplete;
            UpdaterCancel; OnDownloadComplete].
Proof.
  intros Hb Hn Hu Ha Hinner Hc.
  rewrite (@download_not_found_retry H L fuel st st1 rs rs1 e Hb Hn Hu Ha).
  destruct (download_returned_completes _ _ _ _ _ Hinner Hc) as (t & Ht).
  rewrite Hinner; cbn [after_retry final].
  exists t; rewrite finally_block_completes.
  - rewrite Ht, <- app_assoc; reflexivity.
  - unfold finally_block; cbn; rewrite Hc; exact Hc.
Qed.

(** ** Cancellation in any run *)




Lemma cancel_inv_exn (e e' : exn) (st st' : state) (rs rs' : script) :
  cancel_inv st rs (Raised e st' rs') -> cancel_inv st rs (Raised e' st' rs').
Proof. auto. Qed.






Section CancelAware.

Variable H : helper.
Variable L : listener_config.







End CancelAware.








(** ** The shape of a run *)

Lemma clean_failure_text (e : exn) : clean (failure_text e).
Proof.
  unfold clean, failure_text.
  generalize (str_of_exn match e with RetryError last => last | _ => e end).
  intros s; unfold remove_char.
  induction s as [|c s IH]; [reflexivity|].
  cbn [filter]; destruct (c =? 62)%N eqn:H62; cbn [negb]; [exact IH|].
  cbn [filter]; destruct (c =? 60)%N eqn:H60; cbn [negb]; [exact IH|].
  cbn [forallb]; now rewrite H60, H62, IH.
Qed.

Lemma finally_block_events (st : state) :
  exists fin,
    trace (finally_block st) = trace st ++ fin /\ finally_events fin.
Proof.
  unfold finally_block, finally_events; cbn; destruct (is_cancelled st); cbn.
  - exists [UpdaterCancel]; auto.
  - exists [UpdaterCancel; OnDownloadComplete]; rewrite <- app_assoc; auto.
Qed.

(** A call of [download] in which the fallback is not available. *)
Lemma download_single_pass (H : helper) (L : listener_config) (fuel : nat)
    (st : state) (rs : script) :
  negb (alt_auth st) && use_sa st = false ->
  exists evs,
    trace (final (download H L fuel st rs)) = trace st ++ evs
    /\ single_pass (is_done (download H L fuel st rs)) evs.
Proof.
  intros Hlatch; destruct fuel as [|fuel].
  { exists []; cbn; rewrite app_nil_r; split; [reflexivity | constructor]. }
  cbn [download]; cbv zeta.
  destruct (try_block_flags H L fuel st rs) as (Fa & Fu & q & Ht & Hq).
  destruct (try_block H L fuel _ (started st) rs) as [st1 rs1|e st1 rs1|st1|st1];
    cbn [final] in Fa, Fu, Ht.
  - destruct (finally_block_events st1) as (fin & Hf & Hfin).
    exists (UpdaterStart :: q ++ fin); cbn [final is_done]; split.
    + rewrite Hf, Ht, <- app_assoc; reflexivity.
    + now constructor.
  - assert (Herr : forall msg, clean msg ->
               exists evs,
                 trace (finally_block (report_error msg st1)) = trace st ++ evs
                 /\ single_pass true evs).
    { intros msg Hm.
      exists (UpdaterStart :: q ++ [OnDownloadError msg; UpdaterCancel]); split.
      - cbn; rewrite Ht; repeat (rewrite <- ?app_assoc; cbn); reflexivity.
      - now constructor. }
    rewrite Fa, Fu, Hlatch.
    destruct (contains _ _); [apply Herr; reflexivity|].
    destruct (contains _ _); [apply Herr; reflexivity|].
    apply Herr, clean_failure_text.
  - exists (UpdaterStart :: q); cbn [final is_done]; split;
      [assumption | now constructor].
  - exists (UpdaterStart :: q); cbn [final is_done]; split;
      [assumption | now constructor].
Qed.

(** Any call of [download]: it calls itself once at most. *)
Lemma download_run_events (H : helper) (L : listener_config) (fuel : nat)
    (st : state) (rs : script) :
  exists evs,
    trace (final (download H L fuel st rs)) = trace st ++ evs
    /\ run_events (is_done (download H L fuel st rs)) evs.
Proof.
  destruct (negb (alt_auth st) && use_sa st) eqn:Hlatch.
  2:{ destruct (download_single_pass H L fuel st rs Hlatch) as (evs & Ht & Hs).
      exists evs; split; [assumption | now constructor]. }
  destruct fuel as [|fuel].
  { exists []; cbn; rewrite app_nil_r; split; [reflexivity | apply run_single, pass_none]. }
  cbn [download]; cbv zeta.
  destruct (try_block_flags H L fuel st rs) as (Fa & Fu & q & Ht & Hq).
  destruct (try_block H L fuel _ (started st) rs) as [st1 rs1|e st1 rs1|st1|st1];
    cbn [final] in Fa, Fu, Ht.
  - destruct (finally_block_events st1) as (fin & Hf & Hfin).
    exists (UpdaterStart :: q ++ fin); cbn [final is_done]; split.
    + rewrite Hf, Ht, <- app_assoc; reflexivity.
    + apply run_single, pass_returned; assumption.
  - assert (Herr : forall msg, clean msg ->
               exists evs,
                 trace (finally_block (report_error msg st1)) = trace st ++ evs
                 /\ run_events true evs).
    { intros msg Hm.
      exists (UpdaterStart :: q ++ [OnDownloadError msg; UpdaterCancel]); split.
      - cbn; rewrite Ht; repeat (rewrite <- ?app_assoc; cbn); reflexivity.
      - apply run_single, pass_failed; assumption. }
    destruct (contains _ _); [apply Herr; reflexivity|].
    destruct (contains _ _); [|apply Herr, clean_failure_text].
    destruct (negb (alt_auth st1) && use_sa st1); [|apply Herr; reflexivity].
    destruct (download_single_pass H L fuel (alt_auth_fallback st1) rs1 eq_refl)
      as (inner & Hti & Hsi).
    change (trace (alt_auth_fallback st1)) with (trace st1 ++ [UpdaterCancel])
      in Hti; rewrite Ht in Hti.
    destruct (download H L fuel (alt_auth_fallback st1) rs1)
      as [st3 rs3|e3 st3 rs3|st3|st3]; cbn [after_retry final is_done] in *.
    + destruct (finally_block_events st3) as (fin & Hf & Hfin).
      exists (UpdaterStart :: q ++ UpdaterCancel :: inner ++ fin); split.
      * rewrite Hf, Hti; repeat (rewrite <- ?app_assoc; cbn); reflexivity.
      * now constructor.
    + destruct (finally_block_events st3) as (fin & Hf & Hfin).
      exists (UpdaterStart :: q ++ UpdaterCancel :: inner ++ fin); split.
      * rewrite Hf, Hti; repeat (rewrite <- ?app_assoc; cbn); reflexivity.
      * now constructor.
    + exists (UpdaterStart :: q ++ UpdaterCancel :: inner); split.
      * rewrite Hti; repeat (rewrite <- ?app_assoc; cbn); reflexivity.
      * now constructor.
    + exists (UpdaterStart :: q ++ UpdaterCancel :: inner); split.
      * rewrite Hti; repeat (rewrite <- ?app_assoc; cbn); reflexivity.
      * now constructor.
  - exists (UpdaterStart :: q); cbn [final is_done]; split;
      [assumption | apply run_single, pass_running; assumption].
  - exists (UpdaterStart :: q); cbn [final is_done]; split;
      [assumption | apply run_single, pass_running; assumption].
Qed.

Lemma transfer_only_in (q : list event) (ev : event) :
  transfer_only q -> In ev q -> is_run_event ev = false.
Proof.
  unfold transfer_only; intros Hq Hin.
  rewrite forallb_forall in Hq; apply negb_true_iff; auto.
Qed.

Lemma transfer_only_no_start (q : list event) :
  transfer_only q -> filter is_start q = [].
Proof.
  intros Hq; induction q as [|ev q IH]; [reflexivity|].
  assert (Hev : is_run_event ev = false)
    by (apply (@transfer_only_in _ ev Hq); now left).
  cbn; destruct ev; try discriminate; apply IH;
    unfold transfer_only in *; cbn in Hq; exact Hq.
Qed.

Lemma timer_after_app (xs ys : list event) :
  forall b,
    timer_after b (xs ++ ys)
    = match timer_after b xs with
      | Some b' => timer_after b' ys
      | None => None
      end.
Proof.
  induction xs as [|x xs IH]; intros b; cbn; [reflexivity|].
  destruct x; auto; destruct b; auto.
Qed.

Lemma timer_after_transfer (q : list event) :
  transfer_only q -> forall b, timer_after b q = Some b.
Proof.
  intros Hq; induction q as [|ev q IH]; intros b; [reflexivity|].
  assert (Hev : is_run_event ev = false)
    by (apply (@transfer_only_in _ ev Hq); now left).
  assert (Hq' : transfer_only q)
    by (unfold transfer_only in *; cbn in Hq; rewrite Hev in Hq; exact Hq).
  destruct ev; try discriminate; cbn; auto.
Qed.

Lemma single_pass_timer (d : bool) (evs : list event) :
  single_pass d evs ->
  exists b, timer_after false evs = Some b /\ (d = true -> b = false).
Proof.
  intros Hs; destruct Hs as [|q Hq|q fin Hq Hfin|q msg Hq Hm]; cbn.
  - exists false; auto.
  - exists true; split; [now apply timer_after_transfer | discriminate].
  - exists false; split; [|reflexivity].
    rewrite timer_after_app, (timer_after_transfer Hq).
    destruct Hfin as [-> | ->]; reflexivity.
  - exists false; split; [|reflexivity].
    rewrite timer_after_app, (timer_after_transfer Hq); reflexivity.
Qed.

Lemma single_pass_starts (d : bool) (evs : list event) :
  single_pass d evs -> List.length (filter is_start evs) <= 1.
Proof.
  intros Hs; destruct Hs as [|q Hq|q fin Hq Hfin|q msg Hq Hm]; cbn;
    rewrite ?filter_app, ?(transfer_only_no_start Hq); cbn; try lia.
  destruct Hfin as [-> | ->]; cbn; lia.
Qed.

Lemma single_pass_clean (d : bool) (evs : list event) (msg : pystr) :
  single_pass d evs -> In (OnDownloadError msg) evs -> clean msg.
Proof.
  intros Hs Hin.
  assert (Hnq : forall q, transfer_only q -> ~ In (OnDownloadError msg) q).
  { intros q Hq Hq'; pose proof (@transfer_only_in _ _ Hq Hq'); discriminate. }
  destruct Hs as [|q Hq|q fin Hq Hfin|q m Hq Hm]; cbn in Hin.
  - contradiction.
  - destruct Hin as [Hin|Hin]; [discriminate | now apply Hnq in Hin].
  - destruct Hin as [Hin|Hin]; [discriminate|].
    apply in_app_or in Hin as [Hin|Hin]; [now apply Hnq in Hin|].
    destruct Hfin as [-> | ->]; cbn in Hin; intuition discriminate.
  - destruct Hin as [Hin|Hin]; [discriminate|].
    apply in_app_or in Hin as [Hin|Hin]; [now apply Hnq in Hin|].
    cbn in Hin; destruct Hin as [Hin|[Hin|[]]]; [|discriminate].
    now inversion Hin; subst.
Qed.

Lemma clean_spec (msg : pystr) :
  clean msg -> ~ In 60%N msg /\ ~ In 62%N msg.
Proof.
  unfold clean; rewrite forallb_forall; intros Hc.
  split; intros Hin; apply Hc in Hin; discriminate.
Qed.

(** X1 ([download], lines 33, 58 and 64): [download] never starts the
    progress timer while the timer of an earlier call is running, and when
    the call has ended no timer is running. *)
Theorem timer_never_leaked (H : helper) (L : listener_config) (fuel : nat)
    (st : state) (rs : script) :
  exists evs,
    trace (final (download H L fuel st rs)) = trace st ++ evs
    /\ timer_after false evs <> None
    /\ (is_done (download H L fuel st rs) = true ->
        timer_after false evs = Some false).
Proof.
  destruct (download_run_events H L fuel st rs) as (evs & Ht & Hr).
  exists evs; split; [assumption|].
  destruct Hr as [d evs Hs|q inner fin Hq Hs Hfin|q inner Hq Hs].
  - destruct (single_pass_timer Hs) as (b & Hb & Hd); rewrite Hb.
    split; [discriminate|]; intros Hdone; now rewrite Hd.
  - destruct (single_pass_timer Hs) as (b & Hb & Hd).
    rewrite (Hd eq_refl) in Hb.
    assert (Ht' : timer_after false
                    (UpdaterStart :: q ++ UpdaterCancel :: inner ++ fin)
                  = Some false).
    { cbn; rewrite timer_after_app, (timer_after_transfer Hq); cbn.
      rewrite timer_after_app, Hb.
      destruct Hfin as [-> | ->]; reflexivity. }
    rewrite Ht'; split; [discriminate | reflexivity].
  - destruct (single_pass_timer Hs) as (b & Hb & _).
    assert (Ht' : timer_after false (UpdaterStart :: q ++ UpdaterCancel :: inner)
                  = Some b).
    { cbn; rewrite timer_after_app, (timer_after_transfer Hq); cbn; exact Hb. }
    rewrite Ht'; split; discriminate.
Qed.

(** X2 ([download], lines 53-59): the body of [download] is entered twice at
    most in a run, and once when the fallback is not available ([alt_auth]
    is set or service accounts are not in use). *)
Theorem download_runs_at_most_twice (H : helper) (L : listener_config)
    (fuel : nat) (st : state) (rs : script) :
  exists evs,
    trace (final (download H L fuel st rs)) = trace st ++ evs
    /\ List.length (filter is_start evs)
       <= if negb (alt_auth st) && use_sa st then 2 else 1.
Proof.
  destruct (negb (alt_auth st) && use_sa st) eqn:Hlatch.
  - destruct (download_run_events H L fuel st rs) as (evs & Ht & Hr).
    exists evs; split; [assumption|].
    destruct Hr as [d evs Hs|q inner fin Hq Hs Hfin|q inner Hq Hs].
    + pose proof (single_pass_starts Hs); lia.
    + pose proof (single_pass_starts Hs) as Hi; cbn.
      rewrite filter_app, (transfer_only_no_start Hq); cbn.
      rewrite filter_app, length_app.
      destruct Hfin as [-> | ->]; cbn; lia.
    + pose proof (single_pass_starts Hs) as Hi; cbn.
      rewrite filter_app, (transfer_only_no_start Hq); cbn; lia.
  - destruct (download_single_pass H L fuel st rs Hlatch) as (evs & Ht & Hs).
    exists evs; split; [assumption | now apply single_pass_starts with (d := is_done (download H L fuel st rs))].
Qed.

(** X3 ([download], lines 47-62): no text passed to the listener's error
    callback holds a [<] or a [>]. *)
Theorem reported_text_has_no_markup (H : helper) (L : listener_config)
    (fuel : nat) (st : state) (rs : script) :
  exists evs,
    trace (final (download H L fuel st rs)) = trace st ++ evs
    /\ forall msg, In (OnDownloadError msg) evs ->
                   ~ In 60%N msg /\ ~ In 62%N msg.
Proof.
  destruct (download_run_events H L fuel st rs) as (evs & Ht & Hr).
  exists evs; split; [assumption|].
  intros msg Hin; apply clean_spec.
  assert (Hnq : forall q, transfer_only q -> ~ In (OnDownloadError msg) q).
  { intros q Hq Hq'; pose proof (@transfer_only_in _ _ Hq Hq'); discriminate. }
  destruct Hr as [d evs Hs|q inner fin Hq Hs Hfin|q inner Hq Hs].
  - now apply single_pass_clean with d evs.
  - cbn in Hin; destruct Hin as [Hin|Hin]; [discriminate|].
    apply in_app_or in Hin as [Hin|Hin]; [now apply Hnq in Hin|].
    cbn in Hin; destruct Hin as [Hin|Hin]; [discriminate|].
    apply in_app_or in Hin as [Hin|Hin];
      [now apply single_pass_clean with true inner|].
    destruct Hfin as [-> | ->]; cbn in Hin; intuition discriminate.
  - cbn in Hin; destruct Hin as [Hin|Hin]; [discriminate|].
    apply in_app_or in Hin as [Hin|Hin]; [now apply Hnq in Hin|].
    cbn in Hin; destruct Hin as [Hin|Hin]; [discriminate|].
    now apply single_pass_clean with false inner.
Qed.

(** ** The disk *)

Lemma eqb_neq (a b : pystr) : a <> b -> eqb a b = false.
Proof.
  intros Hab; destruct (eqb a b) eqn:He; [|reflexivity].
  now apply eqb_eq in He.
Qed.

Lemma fs_get_put_other (p q : pystr) (c : bytes) (fs : list (pystr * bytes)) :
  p <> q -> fs_get p (fs_put q c fs) = fs_get p fs.
Proof.
  intros Hpq; induction fs as [|[k d] fs IH]; cbn.
  - now rewrite (eqb_neq Hpq).
  - destruct (eqb q k) eqn:Hqk; cbn.
    + apply eqb_eq in Hqk; subst k; now rewrite (eqb_neq Hpq).
    + destruct (eqb p k); auto.
Qed.

Lemma fs_get_append_other (p q : pystr) (c : bytes)
    (fs : list (pystr * bytes)) :
  p <> q -> fs_get p (fs_append q c fs) = fs_get p fs.
Proof.
  intros Hpq; unfold fs_append.
  destruct (fs_get q fs); now apply fs_get_put_other.
Qed.

Lemma fs_put_keeps (p q : pystr) (c : bytes) (fs : list (pystr * bytes)) :
  fs_get p fs <> None -> fs_get p (fs_put q c fs) <> None.
Proof.
  intros Hp; induction fs as [|[k d] fs IH]; cbn in *; [contradiction|].
  destruct (eqb q k) eqn:Hqk; cbn.
  - apply eqb_eq in Hqk; subst k.
    destruct (eqb p q); [discriminate | assumption].
  - destruct (eqb p k); [discriminate | auto].
Qed.

Lemma isfile_put (p q : pystr) (c : bytes) (st : state) :
  isfile p st = true -> isfile p (set_files (fs_put q c (files st)) st) = true.
Proof.
  unfold isfile; cbn; intros Hp.
  pose proof (@fs_put_keeps p q c (files st)) as Hk.
  destruct (fs_get p (files st)); [|discriminate].
  destruct (fs_get p (fs_put q c (files st))); [reflexivity|].
  exfalso; apply Hk; [discriminate | reflexivity].
Qed.

Lemma isfile_append (p q : pystr) (c : bytes) (st : state) :
  isfile p st = true ->
  isfile p (set_files (fs_append q c (files st)) st) = true.
Proof.
  unfold fs_append; destruct (fs_get q (files st)); apply isfile_put.
Qed.

Section DiskSteps.

Variable H : helper.

Lemma disk_kept_refl (o : list pystr) (st : state) : disk_kept H o st st.
Proof.
  split; auto; exists []; split; [now rewrite app_nil_r | auto].
Qed.

Lemma disk_kept_trans (o : list pystr) (a b c : state) :
  disk_kept H o a b -> disk_kept H o b c -> disk_kept H o a c.
Proof.
  intros [(xs & A1 & A2) A3 A4] [(ys & B1 & B2) B3 B4]; split; auto.
  exists (xs ++ ys); split; [now rewrite B1, A1, app_assoc|].
  intros p Ho Hin; rewrite B2, A2; auto; intros q Hq; apply Hin;
    apply in_or_app; auto.
Qed.

(** Files that are open elsewhere may be listed without harm. *)
Lemma disk_kept_weaken (o : list pystr) (st st' : state) :
  disk_kept H [] st st' -> disk_kept H o st st'.
Proof.
  intros [(xs & A1 & A2) A3 A4]; split; auto.
  exists xs; split; [assumption|]; intros p _ Hin; apply A2; auto.
Qed.

Lemma disk_step (o : list pystr) (s0 st st' : state) (evs : list event) :
  trace st' = trace st ++ evs ->
  (forall c, ~ In c o ->
             (forall q, In (FileOpen q) evs -> realpath H q <> c) ->
             fs_get c (files st') = fs_get c (files st)) ->
  (forall c, isfile c st = true -> isfile c st' = true) ->
  (forall d, mem d (dirs st) = true -> mem d (dirs st') = true) ->
  disk_kept H o s0 st -> disk_kept H o s0 st'.
Proof.
  intros E1 E2 E3 E4 K; apply disk_kept_trans with st; [assumption|].
  split; auto; now exists evs.
Qed.

Ltac disk_by evs :=
  let K := fresh "K" in
  intros K; apply (@disk_step _ _ _ _ evs) with (5 := K);
  cbn; rewrite ?app_nil_r; auto.

Lemma disk_emit o s0 st ev :
  disk_kept H o s0 st -> disk_kept H o s0 (emit ev st).
Proof. disk_by [ev]. Qed.

Lemma disk_set_is_cancelled o s0 st b :
  disk_kept H o s0 st -> disk_kept H o s0 (set_is_cancelled b st).
Proof. disk_by (@nil event). Qed.

Lemma disk_flag o s0 st (b : bool) :
  disk_kept H o s0 st ->
  disk_kept H o s0 (if b then set_is_cancelled true st else st).
Proof. destruct b; auto using disk_set_is_cancelled. Qed.

Lemma disk_set_file_processed_bytes o s0 st n :
  disk_kept H o s0 st -> disk_kept H o s0 (set_file_processed_bytes n st).
Proof. disk_by (@nil event). Qed.

Lemma disk_set_name o s0 st n :
  disk_kept H o s0 st -> disk_kept H o s0 (set_name n st).
Proof. disk_by (@nil event). Qed.

Lemma disk_set_rotation o s0 st i c :
  disk_kept H o s0 st -> disk_kept H o s0 (set_rotation i c st).
Proof. disk_by (@nil event). Qed.

Lemma disk_set_service o s0 st c :
  disk_kept H o s0 st -> disk_kept H o s0 (set_service c st).
Proof. disk_by (@nil event). Qed.

Lemma disk_set_use_sa o s0 st b :
  disk_kept H o s0 st -> disk_kept H o s0 (set_use_sa b st).
Proof. disk_by (@nil event). Qed.

Lemma disk_set_alt_auth o s0 st b :
  disk_kept H o s0 st -> disk_kept H o s0 (set_alt_auth b st).
Proof. disk_by (@nil event). Qed.

Lemma disk_makedirs o s0 st d :
  disk_kept H o s0 st -> disk_kept H o s0 (makedirs d st).
Proof.
  unfold makedirs; destruct (mem d (dirs st)) eqn:Hd; [auto|].
  disk_by (@nil event).
  intros d' Hd'; unfold mem in *; cbn; rewrite Hd'; apply orb_true_r.
Qed.

(** Opening a file truncates the file the path names and no other. *)
Lemma disk_opened o s0 st p :
  disk_kept H o s0 st -> disk_kept H o s0 (opened H p st).
Proof.
  unfold opened; disk_by [FileOpen p].
  - intros c _ Hq; apply fs_get_put_other.
    intros ->; apply (Hq p); [now left | reflexivity].
  - intros c; apply isfile_put.
Qed.

(** Writing to a file that is open. *)
Lemma disk_fh_write o s0 st c d :
  In c o -> disk_kept H o s0 st -> disk_kept H o s0 (fh_write c d st).
Proof.
  intros Hp; unfold fh_write; disk_by (@nil event).
  - intros q Hq _; apply fs_get_append_other; intros ->; auto.
  - intros q; apply isfile_append.
Qed.

Lemma disk_track_truncation o s0 st ex f :
  disk_kept H o s0 st -> disk_kept H o s0 (track_truncation ex f st).
Proof.
  unfold track_truncation.
  destruct (255 <? _); [destruct (endswith _ _)|]; auto using disk_set_name.
Qed.

Lemma disk_switch_service_account o s0 st :
  disk_kept H o s0 st -> disk_kept H o s0 (switch_service_account st).
Proof.
  unfold switch_service_account.
  auto using disk_emit, disk_set_service, disk_set_rotation.
Qed.

(** A file opened since [s0] may be written to from then on. *)
Lemma disk_open_then (o : list pystr) (s0 st st' : state) (p : pystr) :
  disk_kept H o s0 st ->
  disk_kept H [realpath H p] (opened H p st) st' ->
  disk_kept H o s0 st'.
Proof.
  intros K K'; pose proof (@disk_opened o s0 st p K) as K1.
  destruct K1 as [(xs & A1 & A2) A3 A4], K' as [(ys & B1 & B2) B3 B4].
  destruct K as [(zs & C1 & _) _ _].
  split; auto.
  exists (xs ++ ys); split; [now rewrite B1, A1, app_assoc|].
  assert (Hin : In (FileOpen p) xs).
  { cbn in A1; rewrite C1, <- app_assoc in A1.
    apply app_inv_head in A1; subst xs; apply in_or_app; right; now left. }
  intros c Ho Hq.
  assert (Hqp : realpath H p <> c)
    by (apply Hq; apply in_or_app; now left).
  rewrite B2, A2; auto.
  - intros q Hx; apply Hq; apply in_or_app; now left.
  - intros [Heq|[]]; now apply Hqp.
  - intros q Hx; apply Hq; apply in_or_app; now right.
Qed.

End DiskSteps.

Create HintDb disk.

#[local] Hint Resolve disk_kept_refl disk_emit disk_set_is_cancelled disk_flag
  disk_set_file_processed_bytes disk_set_name disk_set_rotation
  disk_set_service disk_set_use_sa disk_set_alt_auth disk_makedirs
  disk_opened disk_track_truncation disk_switch_service_account : disk.

Section Disk.

Variable H : helper.
Variable L : listener_config.

Ltac split_ifs :=
  repeat match goal with
    | |- context [if ?b then _ else _] => destruct b eqn:?
    | |- context [match ?x with _ => _ end] => destruct x eqn:?
    end.

Lemma chunk_loop_keeps_disk (self : args -> state -> script -> result) :
  (forall a o, keeps_disk H o (self a)) ->
  forall rs a progress retries s0 st,
    disk_kept H [realpath H (file_path (path a) (filename a))] s0 st ->
    disk_kept H [realpath H (file_path (path a) (filename a))] s0
      (final (chunk_loop H self a progress retries st rs)).
Proof.
  intros Hself rs; induction rs as [|r rs IH];
    intros a progress retries s0 st K.
  - cbn; destruct (is_cancelled st); cbn; unfold fh_close; auto with disk.
  - cbn [chunk_loop].
    destruct (is_cancelled st) eqn:Hc;
      [cbn; unfold fh_close; auto with disk|].
    cbv zeta.
    set (st1 := if cancel_set r then _ else _).
    assert (K1 : disk_kept H [realpath H (file_path (path a) (filename a))]
                   s0 st1)
      by (subst st1; auto with disk).
    clearbody st1; clear K.
    destruct (outcome_of r) as [|e|cls msg]; [| |exact K1].
    + assert (K2 : disk_kept H [realpath H (file_path (path a) (filename a))]
                     s0
                     (fh_write (realpath H (file_path (path a) (filename a)))
                        (nth progress (media H (export a) (file_id a)) [])
                        st1))
        by (apply disk_fh_write; [now left | assumption]).
      destruct (_ <=? _); [cbn; auto with disk | now apply IH].
    + destruct (retried_in_place e retries); [now apply IH|].
      destruct (is_json e); [|now apply IH].
      destruct (content e) as [reason|cls msg]; [|exact K1].
      split_ifs; cbn [final]; auto with disk; apply Hself; auto with disk.
Qed.

Lemma download_file_attempt_keeps_disk
    (self : args -> state -> script -> result) :
  (forall a o, keeps_disk H o (self a)) ->
  forall a o, keeps_disk H o (download_file_attempt H self a).
Proof.
  intros Hself a o s0 st rs K; unfold download_file_attempt.
  destruct (encode_error _); [exact K|].
  assert (K1 : disk_kept H o s0 (track_truncation (export a) (filename a) st))
    by auto with disk.
  destruct (is_cancelled _); [exact K1|].
  unfold open_wb; destruct (open_error _ _ _ _); [exact K1|].
  eapply disk_open_then; [exact K1|].
  apply (@chunk_loop_keeps_disk self Hself rs
           (with_filename (prepared_filename (export a) (filename a)) a)).
  apply disk_kept_refl.
Qed.

Lemma retrying_keeps_disk (o : list pystr) (f : state -> script -> result)
    (more : nat) :
  keeps_disk H o f -> keeps_disk H o (retrying more f).
Proof.
  intros Hf; induction more as [|k IH]; intros s0 st rs K; cbn [retrying];
    specialize (Hf s0 st rs K); destruct (f st rs); auto.
Qed.

Lemma _download_file_keeps_disk (fuel : nat) (a : args) (o : list pystr) :
  keeps_disk H o (_download_file H fuel a).
Proof.
  revert a o; induction fuel as [|fuel IH]; intros a o s0 st rs K;
    cbn [_download_file]; [exact K|].
  apply retrying_keeps_disk; auto.
  now apply download_file_attempt_keeps_disk.
Qed.

Lemma _download_folder_keeps_disk (fuel : nat)
    (folder_id dir folder_name : pystr) (o : list pystr) :
  keeps_disk H o (_download_folder H L fuel folder_id dir folder_name).
Proof.
  revert folder_id dir folder_name;
    induction fuel as [|fuel IH]; intros folder_id dir folder_name s0 st rs K;
    cbn [_download_folder]; [exact K|].
  cbv zeta.
  set (st1 := if exists_path _ st then st else _).
  assert (K1 : disk_kept H o s0 st1)
    by (subst st1; destruct (exists_path _ st); auto with disk).
  clearbody st1; clear K st.
  destruct (get_files_by_folder_id _ _ _) as [e|listing]; [exact K1|].
  destruct (_ =? 0); [exact K1|].
  generalize (sorted_by_name listing); intros items.
  revert st1 rs K1; induction items as [|it items IHi]; intros st rs K;
    [exact K|].
  match goal with
  | |- disk_kept _ _ _ (final (match ?r with _ => _ end)) =>
      assert (Hr : disk_kept H o s0 (final r));
      [|destruct r as [st2 rs2| | |]; auto]
  end.
  - repeat match goal with
      | |- context [if ?b then _ else _] => destruct b
      end;
      [now apply IH | now apply _download_file_keeps_disk | exact K].
  - destruct (is_cancelled st2); [exact Hr | now apply IHi].
Qed.

Lemma try_block_keeps_disk (fuel : nat) (root_id : pystr) (o : list pystr) :
  keeps_disk H o (try_block H L fuel root_id).
Proof.
  intros s0 st rs K; unfold try_block.
  destruct (get_file_metadata _ _ _) as [e|m]; [exact K|].
  destruct (option_eqb _ _);
    [now apply _download_folder_keeps_disk|].
  apply _download_file_keeps_disk; auto with disk.
Qed.

Lemma disk_finally_block o s0 st :
  disk_kept H o s0 st -> disk_kept H o s0 (finally_block st).
Proof.
  intros K; unfold finally_block; destruct (is_cancelled _); auto with disk.
Qed.

Lemma disk_report_error o s0 st msg :
  disk_kept H o s0 st -> disk_kept H o s0 (report_error msg st).
Proof. unfold report_error; auto with disk. Qed.

Lemma download_keeps_disk (fuel : nat) (o : list pystr) :
  keeps_disk H o (download H L fuel).
Proof.
  induction fuel as [|fuel IH]; intros s0 st rs K; cbn [download];
    [exact K|].
  cbv zeta.
  assert (K1 : disk_kept H o s0 (started st))
    by (unfold started; auto with disk).
  pose proof (@try_block_keeps_disk fuel
                (get_id_from_url H (link L) (user_id L)) o s0 _ rs K1) as K2.
  destruct (try_block _ _ _ _ _) as [st2 rs2|e st2 rs2|st2|st2];
    cbn [final] in *; auto using disk_finally_block.
  destruct (contains _ _);
    [cbn [final]; auto using disk_finally_block, disk_report_error|].
  destruct (contains _ _);
    [|cbn [final]; auto using disk_finally_block, disk_report_error].
  destruct (negb _ && _);
    [|cbn [final]; auto using disk_finally_block, disk_report_error].
  assert (K3 : disk_kept H o s0 (alt_auth_fallback st2))
    by (unfold alt_auth_fallback; auto with disk).
  specialize (IH s0 _ rs2 K3).
  destruct (download _ _ _ _ _); cbn [after_retry final] in *;
    auto using disk_finally_block.
Qed.

End Disk.

(** X4 ([download], [_download_folder], [_download_file]): whatever the
    script and the listing, a run leaves the content of every file alone
    unless it has opened for writing a path that names the file, removes no
    file and removes no directory.  Files are told apart by what the
    operating system takes their paths for, so a file reached through a
    path with [..] in it counts as opened. *)
Theorem only_opened_files_change (H : helper) (L : listener_config)
    (fuel : nat) (st : state) (rs : script) :
  exists evs,
    trace (final (download H L fuel st rs)) = trace st ++ evs
    /\ (forall c, (forall q, In (FileOpen q) evs -> realpath H q <> c) ->
          fs_get c (files (final (download H L fuel st rs)))
          = fs_get c (files st))
    /\ (forall c, isfile c st = true ->
          isfile c (final (download H L fuel st rs)) = true)
    /\ (forall d, mem d (dirs st) = true ->
          mem d (dirs (final (download H L fuel st rs))) = true).
Proof.
  destruct (@download_keeps_disk H L fuel [] st st rs (disk_kept_refl H [] st))
    as [(evs & E1 & E2) E3 E4].
  exists evs; repeat split; auto.
Qed.

(** ** Errors without a JSON body *)

Section Absorbed.

Variable H : helper.
Variable self : args -> state -> script -> result.
Variable a : args.

Let chunks : list bytes := media H (export a) (file_id a).
Let request (i : nat) : event := NextChunk (file_id a) (export a) i.

(** Whatever the counter of line 129 says, an error whose content type is
    not JSON sends the loop to its next iteration: retried in place, or
    falling through the handler of lines 141-175. *)
Lemma chunk_loop_absorbs (progress : nat) (tail : script) :
  forall (es : list http_error) (retries : nat) (st : state),
    is_cancelled st = false ->
    Forall (fun e => is_json e = false) es ->
    exists retries',
      chunk_loop H self a progress retries st (map failing es ++ tail)
      = chunk_loop H self a progress retries'
          (emits (repeat (request progress) (List.length es)) st) tail.
Proof.
  induction es as [|e es IH]; intros retries st Hc Hj.
  - exists retries; reflexivity.
  - inversion Hj as [|? ? He Hes]; subst.
    cbn [map app]; unfold failing at 1.
    cbn [chunk_loop outcome_of cancel_set]; rewrite Hc, He.
    destruct (retried_in_place e retries);
      [destruct (IH (S retries) (emit (request progress) st)) as (n & Hn)
      |destruct (IH retries (emit (request progress) st)) as (n & Hn)];
      auto; exists n; rewrite Hn; reflexivity.
Qed.

Lemma chunk_loop_absorbing (rest : script) :
  forall (faults : list (list http_error)) (progress retries : nat)
         (st : state),
    is_cancelled st = false ->
    faults <> [] ->
    progress + List.length faults = fetches chunks ->
    Forall (Forall (fun e => is_json e = false)) faults ->
    exists st',
      chunk_loop H self a progress retries st (faulty_script faults ++ rest)
      = Returned st' rest
      /\ trace st'
         = trace st ++ requests_of (file_id a) (export a) faults progress
      /\ files st'
         = write_chunks (realpath H (file_path (path a) (filename a)))
             chunks progress (List.length faults) (files st).
Proof.
  induction faults as [|es faults IH]; intros progress retries st Hc Hne Hn Ht;
    [contradiction|].
  inversion Ht as [|? ? Hes Hfs]; subst.
  cbn [faulty_script flat_map]; rewrite <- !app_assoc.
  destruct (@chunk_loop_absorbs progress
              ([delivered] ++ flat_map (fun es => map failing es ++ [delivered])
                                 faults ++ rest) es retries st Hc Hes)
    as (retries' & ->).
  set (st1 := emits (repeat (request progress) (List.length es)) st).
  assert (Hc1 : is_cancelled st1 = false)
    by (subst st1; now rewrite (proj2 (emits_same _ _))).
  assert (Hf1 : files st1 = files st) by apply emits_same.
  assert (Ht1 : trace st1
                = trace st ++ repeat (request progress) (List.length es))
    by apply emits_trace.
  cbn [app]; unfold delivered at 1.
  cbn [chunk_loop outcome_of cancel_set]; rewrite Hc1; fold chunks.
  unfold fetches in Hn.
  destruct faults as [|es' faults]; cbn [List.length] in Hn.
  - replace (List.length chunks <=? S progress) with true
      by (symmetry; apply Nat.leb_le; lia).
    eexists; split; [reflexivity|]; cbn; split.
    + rewrite Ht1, app_nil_r, <- app_assoc.
      f_equal; fold (request progress).
      now rewrite <- repeat_cons.
    + now rewrite Hf1.
  - replace (List.length chunks <=? S progress) with false
      by (symmetry; apply Nat.leb_gt; lia).
    edestruct (IH (S progress) retries') as (st' & Hrun & Htr & Hfi);
      [| | | exact Hfs | ].
    4:{ exists st'; split; [unfold faulty_script in Hrun; exact Hrun|]; split.
        - rewrite Htr; cbn; rewrite Ht1, <- !app_assoc.
          f_equal; fold (request progress).
          cbn [requests_of].
          change (NextChunk (file_id a) (export a) progress)
            with (request progress).
          rewrite app_assoc, <- repeat_cons; reflexivity.
        - rewrite Hfi; cbn; now rewrite Hf1. }
    + cbn; exact Hc1.
    + discriminate.
    + unfold fetches; cbn [List.length]; lia.
Qed.

End Absorbed.

(** X5 ([_download_file], lines 136-175): where the destination file can be
    opened, an [HttpError] whose content type is not JSON never leaves the
    loop, however many of them there are and whatever their status: the same
    chunk is asked for again each time, and when the fetches succeed at last
    the transfer returns with the file holding the chunks of the object in
    order. *)
Theorem errors_without_json_body_absorbed (H : helper) (fuel : nat)
    (a : args) (st : state) (faults : list (list http_error))
    (rest : script) :
  is_cancelled st = false -> can_open H a st ->
  List.length faults = fetches (media H (export a) (file_id a)) ->
  Forall (Forall (fun e => is_json e = false)) faults ->
  let p := file_path (path a) (prepared_filename (export a) (filename a)) in
  exists st',
    _download_file H (S fuel) a st (faulty_script faults ++ rest)
    = Returned st' rest
    /\ fs_get (realpath H p) (files st')
       = Some (List.concat (media H (export a) (file_id a)))
    /\ trace st'
       = trace st ++ FileOpen p :: requests_of (file_id a) (export a) faults 0.
Proof.
  intros Hc Hopen Hn Ht p.
  destruct (track_truncation_same (export a) (filename a) st)
    as (Tc & Tt & Tf).
  set (a' := with_filename (prepared_filename (export a) (filename a)) a).
  destruct (@chunk_loop_absorbing H (_download_file H fuel) a' rest faults 0 0
              (opened H p (track_truncation (export a) (filename a) st)))
    as (st' & Hrun & Htr & Hfi); auto.
  - cbn; now rewrite Tc.
  - intros ->; unfold fetches in Hn; cbn [List.length] in Hn; lia.
  - exists st'; cbn [_download_file]; split; [|split].
    + apply retrying_returned.
      rewrite download_file_attempt_opened by assumption; exact Hrun.
    + rewrite Hfi; cbn [files opened emit set_files].
      change (file_path (path a') (filename a')) with p.
      rewrite write_chunks_get with (c := []) by apply fs_get_put.
      rewrite Hn; cbn [skipn app]; f_equal.
      change (media H (export a') (file_id a'))
        with (media H (export a) (file_id a)).
      f_equal; apply firstn_all2; unfold fetches; lia.
    + rewrite Htr; cbn; rewrite Tt, <- app_assoc; reflexivity.
Qed.

(** Witness of X5: twelve HTML error pages on the first of two chunks, more
    than the counter of line 129 allows for the transient statuses. *)
Lemma errors_without_json_body_absorbed_witness :
  exists st',
    _download_file (Sample.drive Sample.two_chunks) 1
      (Sample.file_args (lit "a.txt")) (Sample.fresh false 0 0 (lit "a.txt"))
      (faulty_script [repeat Sample.html_forbidden 12; []] ++ [])
    = Returned st' []
    /\ fs_get (lit "/dl/a.txt") (files st')
       = Some [Byte.x68; Byte.x65; Byte.x79]
    /\ trace st'
       = trace (Sample.fresh false 0 0 (lit "a.txt"))
         ++ FileOpen (lit "/dl/a.txt")
            :: requests_of (lit "id1") false
                 [repeat Sample.html_forbidden 12; []] 0.
Proof.
  apply (@errors_without_json_body_absorbed
           (Sample.drive Sample.two_chunks) 0
           (Sample.file_args (lit "a.txt"))
           (Sample.fresh false 0 0 (lit "a.txt"))
           [repeat Sample.html_forbidden 12; []] []).
  - reflexivity.
  - split; reflexivity.
  - reflexivity.
  - repeat constructor.
Defined.

(** ** Rotations of the service accounts *)

Lemma rotated_refl (st : state) : rotated st st.
Proof.
  split; auto; exists []; cbn; rewrite app_nil_r, Nat.add_0_r; auto.
Qed.

Lemma rot_step (s0 st st' : state) (evs : list event) :
  trace st' = trace st ++ evs ->
  sa_number st' = sa_number st ->
  (use_sa st = false -> use_sa st' = false) ->
  sa_count st' = sa_count st + List.length (filter is_switch evs) ->
  (filter is_switch evs = []
   \/ (sa_count st' <= sa_number st /\ use_sa st = true)) ->
  rotated s0 st -> rotated s0 st'.
Proof.
  intros E1 E2 E3 E4 E5 [R1 R2 (xs & X1 & X2 & X3)]; split.
  - congruence.
  - auto.
  - exists (xs ++ evs); rewrite filter_app, length_app.
    split; [now rewrite E1, X1, app_assoc|]; split; [lia|].
    destruct E5 as [E5|(E5 & E6)].
    + rewrite E5, app_nil_r in *; cbn in E4.
      destruct X3 as [X3|(X3 & X4)]; [now left | right; split; [lia|auto]].
    + right; split; [lia|].
      destruct (use_sa s0) eqn:Hu; [reflexivity|].
      rewrite R2 in E6; [discriminate | reflexivity].
Qed.

Ltac rot_by evs :=
  let R := fresh "R" in
  intros R; apply (@rot_step _ _ _ evs) with (6 := R);
  cbn; rewrite ?app_nil_r, ?Nat.add_0_r; auto.

Lemma rot_emit s0 st ev :
  is_switch ev = false -> rotated s0 st -> rotated s0 (emit ev st).
Proof. intros He; rot_by [ev]; rewrite He; cbn; auto. Qed.

Lemma rot_set_is_cancelled s0 st b :
  rotated s0 st -> rotated s0 (set_is_cancelled b st).
Proof. rot_by (@nil event). Qed.

Lemma rot_flag s0 st (b : bool) :
  rotated s0 st -> rotated s0 (if b then set_is_cancelled true st else st).
Proof. destruct b; auto using rot_set_is_cancelled. Qed.

Lemma rot_set_file_processed_bytes s0 st n :
  rotated s0 st -> rotated s0 (set_file_processed_bytes n st).
Proof. rot_by (@nil event). Qed.

Lemma rot_set_name s0 st n :
  rotated s0 st -> rotated s0 (set_name n st).
Proof. rot_by (@nil event). Qed.

Lemma rot_set_service s0 st c :
  rotated s0 st -> rotated s0 (set_service c st).
Proof. rot_by (@nil event). Qed.

Lemma rot_set_alt_auth s0 st b :
  rotated s0 st -> rotated s0 (set_alt_auth b st).
Proof. rot_by (@nil event). Qed.

(** Line 56: service accounts are put out of use, never into use. *)
Lemma rot_set_use_sa_false s0 st :
  rotated s0 st -> rotated s0 (set_use_sa false st).
Proof. rot_by (@nil event). Qed.

Lemma rot_set_files s0 st f :
  rotated s0 st -> rotated s0 (set_files f st).
Proof. rot_by (@nil event). Qed.

Lemma rot_makedirs s0 st d :
  rotated s0 st -> rotated s0 (makedirs d st).
Proof.
  unfold makedirs; destruct (mem d (dirs st)); [auto|]; rot_by (@nil event).
Qed.

Lemma rot_open_wb H s0 st p :
  rotated s0 st -> rotated s0 (opened H p st).
Proof. unfold opened; rot_by [FileOpen p]. Qed.

Lemma rot_fh_write s0 st p d :
  rotated s0 st -> rotated s0 (fh_write p d st).
Proof. unfold fh_write; rot_by (@nil event). Qed.

Lemma rot_fh_close s0 st p :
  rotated s0 st -> rotated s0 (fh_close p st).
Proof. unfold fh_close; rot_by [FileClose p]. Qed.

Lemma rot_track_truncation s0 st ex f :
  rotated s0 st -> rotated s0 (track_truncation ex f st).
Proof.
  unfold track_truncation.
  destruct (255 <? _); [destruct (endswith _ _)|]; auto using rot_set_name.
Qed.

(** Lines 158-166: the account is switched under the guards only. *)
Lemma rot_switch_service_account s0 st :
  use_sa st = true -> (sa_number st <=? sa_count st) = false ->
  rotated s0 st -> rotated s0 (switch_service_account st).
Proof.
  intros Hu Hn; apply Nat.leb_gt in Hn.
  unfold switch_service_account.
  rot_by [SwitchServiceAccount (Nat.modulo (S (sa_index st)) (sa_number st))].
  lia.
Qed.

Create HintDb rot.

#[local] Hint Resolve rotated_refl rot_set_is_cancelled rot_flag
  rot_set_file_processed_bytes rot_set_name rot_set_service rot_set_alt_auth
  rot_set_use_sa_false rot_set_files rot_makedirs rot_open_wb rot_fh_write
  rot_fh_close rot_track_truncation rot_switch_service_account : rot.

#[local] Hint Extern 1 (rotated _ (emit _ _)) =>
  apply rot_emit; [reflexivity|] : rot.

Section Rotation.

Variable H : helper.
Variable L : listener_config.

Ltac split_ifs :=
  repeat match goal with
    | |- context [if ?b then _ else _] => destruct b eqn:?
    | |- context [match ?x with _ => _ end] => destruct x eqn:?
    end.

Lemma chunk_loop_rotates (self : args -> state -> script -> result) :
  (forall a, rotates (self a)) ->
  forall rs a progress retries s0 st,
    rotated s0 st ->
    rotated s0 (final (chunk_loop H self a progress retries st rs)).
Proof.
  intros Hself rs; induction rs as [|r rs IH];
    intros a progress retries s0 st R.
  - cbn; destruct (is_cancelled st); cbn; auto with rot.
  - cbn [chunk_loop].
    destruct (is_cancelled st) eqn:Hc; [cbn; auto with rot|].
    cbv zeta.
    set (st1 := if cancel_set r then _ else _).
    assert (R1 : rotated s0 st1) by (subst st1; auto with rot).
    clearbody st1; clear R.
    destruct (outcome_of r) as [|e|cls msg]; [| |exact R1].
    + destruct (_ <=? _); [cbn; auto with rot | apply IH; auto with rot].
    + destruct (retried_in_place e retries); [now apply IH|].
      destruct (is_json e); [|now apply IH].
      destruct (content e) as [reason|cls msg]; [|exact R1].
      split_ifs; cbn [final]; auto with rot; apply Hself; auto with rot.
Qed.

Lemma download_file_attempt_rotates
    (self : args -> state -> script -> result) :
  (forall a, rotates (self a)) ->
  forall a, rotates (download_file_attempt H self a).
Proof.
  intros Hself a s0 st rs R; unfold download_file_attempt.
  destruct (encode_error _); [exact R|].
  destruct (is_cancelled _); [cbn; auto with rot|].
  unfold open_wb; destruct (open_error _ _ _ _); [cbn; auto with rot|].
  apply chunk_loop_rotates; auto with rot.
Qed.

Lemma retrying_rotates (f : state -> script -> result) (more : nat) :
  rotates f -> rotates (retrying more f).
Proof.
  intros Hf; induction more as [|k IH]; intros s0 st rs R; cbn [retrying];
    specialize (Hf s0 st rs R); destruct (f st rs); auto.
Qed.

Lemma _download_file_rotates (fuel : nat) (a : args) :
  rotates (_download_file H fuel a).
Proof.
  revert a; induction fuel as [|fuel IH]; intros a s0 st rs R;
    cbn [_download_file]; [exact R|].
  apply retrying_rotates; auto.
  now apply download_file_attempt_rotates.
Qed.

Lemma _download_folder_rotates (fuel : nat)
    (folder_id dir folder_name : pystr) :
  rotates (_download_folder H L fuel folder_id dir folder_name).
Proof.
  revert folder_id dir folder_name;
    induction fuel as [|fuel IH]; intros folder_id dir folder_name s0 st rs R;
    cbn [_download_folder]; [exact R|].
  cbv zeta.
  set (st1 := if exists_path _ st then st else _).
  assert (R1 : rotated s0 st1)
    by (subst st1; destruct (exists_path _ st); auto with rot).
  clearbody st1; clear R st.
  destruct (get_files_by_folder_id _ _ _) as [e|listing]; [exact R1|].
  destruct (_ =? 0); [exact R1|].
  generalize (sorted_by_name listing); intros items.
  revert st1 rs R1; induction items as [|it items IHi]; intros st rs R;
    [exact R|].
  match goal with
  | |- rotated _ (final (match ?r with _ => _ end)) =>
      assert (Hr : rotated s0 (final r));
      [|destruct r as [st2 rs2| | |]; auto]
  end.
  - repeat match goal with
      | |- context [if ?b then _ else _] => destruct b
      end;
      [now apply IH | now apply _download_file_rotates | exact R].
  - destruct (is_cancelled st2); [exact Hr | now apply IHi].
Qed.

Lemma try_block_rotates (fuel : nat) (root_id : pystr) :
  rotates (try_block H L fuel root_id).
Proof.
  intros s0 st rs R; unfold try_block.
  destruct (get_file_metadata _ _ _) as [e|m]; [exact R|].
  destruct (option_eqb _ _); [now apply _download_folder_rotates|].
  apply _download_file_rotates; auto with rot.
Qed.

Lemma rot_finally_block s0 st :
  rotated s0 st -> rotated s0 (finally_block st).
Proof.
  intros R; unfold finally_block; destruct (is_cancelled _); auto with rot.
Qed.

Lemma rot_report_error s0 st msg :
  rotated s0 st -> rotated s0 (report_error msg st).
Proof. unfold report_error; auto with rot. Qed.

Lemma download_rotates (fuel : nat) : rotates (download H L fuel).
Proof.
  induction fuel as [|fuel IH]; intros s0 st rs R; cbn [download];
    [exact R|].
  cbv zeta.
  assert (R1 : rotated s0 (started st)) by (unfold started; auto with rot).
  pose proof (@try_block_rotates fuel
                (get_id_from_url H (link L) (user_id L)) s0 _ rs R1) as R2.
  destruct (try_block _ _ _ _ _) as [st2 rs2|e st2 rs2|st2|st2];
    cbn [final] in *; auto using rot_finally_block.
  destruct (contains _ _);
    [cbn [final]; auto using rot_finally_block, rot_report_error|].
  destruct (contains _ _);
    [|cbn [final]; auto using rot_finally_block, rot_report_error].
  destruct (negb _ && _);
    [|cbn [final]; auto using rot_finally_block, rot_report_error].
  assert (R3 : rotated s0 (alt_auth_fallback st2))
    by (unfold alt_auth_fallback; auto with rot).
  specialize (IH s0 _ rs2 R3).
  destruct (download _ _ _ _ _); cbn [after_retry final] in *;
    auto using rot_finally_block.
Qed.

End Rotation.

(** X6 ([_download_file], lines 158-173, under [download]): a run switches
    the service account no more often than accounts are left
    ([sa_number - sa_count] on entry), counts every switch in [sa_count], and
    switches none when service accounts are not in use. *)
Theorem rotations_bounded (H : helper) (L : listener_config) (fuel : nat)
    (st : state) (rs : script) :
  exists evs,
    trace (final (download H L fuel st rs)) = trace st ++ evs
    /\ List.length (filter is_switch evs) <= sa_number st - sa_count st
    /\ sa_count (final (download H L fuel st rs))
       = sa_count st + List.length (filter is_switch evs)
    /\ (use_sa st = false -> filter is_switch evs = []).
Proof.
  destruct (@download_rotates H L fuel st st rs (rotated_refl st))
    as [_ _ (evs & E1 & E2 & E3)].
  exists evs; split; [exact E1|]; split; [|split; [exact E2|]].
  - destruct E3 as [->|(E3 & _)]; cbn; lia.
  - intros Hu; destruct E3 as [E3|(_ & E3)]; [exact E3 | congruence].
Qed.

(** ** Runs entered with the flag set *)

Section Idle.

Variable H : helper.
Variable L : listener_config.

Lemma idle_flag (st0 st : state) (rs : script) (r : result) :
  trace st = trace st0 -> files st = files st0 ->
  idle st rs r -> idle st0 rs r.
Proof. intros Ht Hf (I1 & I2 & I3 & I4); repeat split; congruence. Qed.

(** Line 124: the check that precedes the opening of the file. *)
Lemma _download_file_idle (fuel : nat) (a : args) (st : state) (rs : script) :
  is_cancelled st = true -> idle st rs (_download_file H fuel a st rs).
Proof.
  intros Hc; destruct fuel as [|fuel]; [repeat split; auto|].
  rewrite _download_file_cancelled by assumption.
  destruct (encode_error _); [repeat split; auto|].
  destruct (track_truncation_same (export a) (filename a) st)
    as (Tc & Tt & Tf).
  repeat split; cbn [final]; congruence.
Qed.

Lemma makedirs_same (d : pystr) (st : state) :
  is_cancelled (makedirs d st) = is_cancelled st
  /\ trace (makedirs d st) = trace st
  /\ files (makedirs d st) = files st.
Proof. unfold makedirs; destruct (mem _ _); auto. Qed.

(** Lines 95-96: the loop is left after the first child. *)
Lemma _download_folder_idle (fuel : nat) (folder_id dir folder_name : pystr)
    (st : state) (rs : script) :
  is_cancelled st = true ->
  idle st rs (_download_folder H L fuel folder_id dir folder_name st rs).
Proof.
  revert folder_id dir folder_name st rs;
    induction fuel as [|fuel IH]; intros folder_id dir folder_name st rs Hc;
    cbn [_download_folder]; [repeat split; auto|].
  cbv zeta.
  set (st1 := if exists_path _ st then st else _).
  assert (H1 : is_cancelled st1 = true /\ trace st1 = trace st
               /\ files st1 = files st).
  { subst st1; destruct (exists_path _ st); [auto|].
    destruct (makedirs_same
                (realpath H (file_path dir (remove_char slash folder_name)))
                st)
      as (M1 & M2 & M3); repeat split; congruence. }
  clearbody st1; destruct H1 as (Hc1 & Ht1 & Hf1).
  apply idle_flag with st1; auto; clear Hc Ht1 Hf1 st.
  destruct (get_files_by_folder_id _ _ _) as [e|listing];
    [repeat split; auto|].
  destruct (_ =? 0); [repeat split; auto|].
  destruct (sorted_by_name listing) as [|it items]; [repeat split; auto|].
  match goal with
  | |- idle _ _ (match ?r with _ => _ end) =>
      assert (Hr : idle st1 rs r)
  end.
  { repeat match goal with
      | |- context [if ?b then _ else _] => destruct b
      end;
      [now apply IH | now apply _download_file_idle | repeat split; auto]. }
  match goal with
  | |- idle _ _ (match ?r with _ => _ end) =>
      destruct r as [st2 rs2| | |]; auto
  end.
  destruct Hr as (I1 & I2); cbn [final] in I1; rewrite I1.
  split; assumption.
Qed.

Lemma try_block_idle (fuel : nat) (root_id : pystr) (st : state)
    (rs : script) :
  is_cancelled st = true -> idle st rs (try_block H L fuel root_id st rs).
Proof.
  intros Hc; unfold try_block.
  destruct (get_file_metadata _ _ _) as [e|m]; [repeat split; auto|].
  destruct (option_eqb _ _); [now apply _download_folder_idle|].
  destruct (makedirs_same (realpath H (_path L)) st) as (M1 & M2 & M3).
  apply idle_flag with (makedirs (realpath H (_path L)) st); auto.
  apply _download_file_idle; congruence.
Qed.

Lemma download_idle (fuel : nat) :
  forall st rs,
    is_cancelled st = true ->
    exists evs,
      trace (final (download H L fuel st rs)) = trace st ++ evs
      /\ forallb (fun ev => is_run_event ev && negb (is_complete ev)) evs
         = true
      /\ is_cancelled (final (download H L fuel st rs)) = true
      /\ files (final (download H L fuel st rs)) = files st
      /\ match download H L fuel st rs with
         | Returned _ rs' | Raised _ _ rs' => rs' = rs
         | _ => True
         end.
Proof.
  induction fuel as [|fuel IH]; intros st rs Hc.
  { exists []; cbn; rewrite app_nil_r; auto. }
  cbn [download]; cbv zeta.
  destruct (@try_block_idle fuel (get_id_from_url H (link L) (user_id L))
              (started st) rs Hc) as (I1 & I2 & I3 & I4).
  destruct (try_block _ _ _ _ _) as [st1 rs1|e st1 rs1|st1|st1];
    cbn [final] in I1, I2, I3.
  - exists [UpdaterStart; UpdaterCancel].
    unfold finally_block; cbn; rewrite I1; cbn; rewrite I2; cbn.
    rewrite <- app_assoc; auto.
  - assert (Herr : forall msg,
               exists evs,
                 trace (finally_block (report_error msg st1)) = trace st ++ evs
                 /\ forallb (fun ev => is_run_event ev && negb (is_complete ev))
                      evs = true
                 /\ is_cancelled (finally_block (report_error msg st1)) = true
                 /\ files (finally_block (report_error msg st1)) = files st
                 /\ rs1 = rs).
    { intros msg; exists [UpdaterStart; OnDownloadError msg; UpdaterCancel].
      unfold finally_block, report_error; cbn; rewrite I2; cbn.
      rewrite <- !app_assoc; auto. }
    destruct (contains _ _); [apply Herr|].
    destruct (contains _ _); [|apply Herr].
    destruct (negb _ && _); [|apply Herr].
    destruct (IH (alt_auth_fallback st1) rs1 I1)
      as (evs & E1 & E2 & E3 & E4 & E5).
    exists (UpdaterStart :: UpdaterCancel :: evs
            ++ match download H L fuel (alt_auth_fallback st1) rs1 with
               | Returned _ _ | Raised _ _ _ => [UpdaterCancel]
               | _ => []
               end).
    destruct (download H L fuel (alt_auth_fallback st1) rs1)
      as [st2 rs2|e2 st2 rs2|st2|st2];
      cbn [after_retry final] in *;
      rewrite ?forallb_app, ?E2; subst; repeat split; auto;
      unfold finally_block; cbn; rewrite ?E3; cbn;
      rewrite ?E1, ?E4; cbn; rewrite ?I2, ?I3;
      cbn; repeat (rewrite <- ?app_assoc; cbn); rewrite ?app_nil_r;
      rewrite ?forallb_app, ?E2; auto.
  - exists [UpdaterStart]; cbn [final]; rewrite I2, I3; cbn; auto.
  - exists [UpdaterStart]; cbn [final]; rewrite I2, I3; cbn; auto.
Qed.

End Idle.

(** X7 ([download], [_download_folder] lines 95-96, [_download_file] line
    124): a run that is entered with [listener.is_cancelled] set asks for no
    chunk, opens no file and leaves every file as it is; the only events are
    those of the timer and, when a lookup or the encoding of a name fails,
    the error callback; no completion is reported. *)
Theorem cancelled_run_transfers_nothing (H : helper) (L : listener_config)
    (fuel : nat) (st : state) (rs : script) :
  is_cancelled st = true ->
  exists evs,
    trace (final (download H L fuel st rs)) = trace st ++ evs
    /\ (forall ev, In ev evs ->
          ev = UpdaterStart \/ ev = UpdaterCancel
          \/ exists msg, ev = OnDownloadError msg)
    /\ files (final (download H L fuel st rs)) = files st
    /\ match download H L fuel st rs with
       | Returned _ rs' | Raised _ _ rs' => rs' = rs
       | _ => True
       end.
Proof.
  intros Hc.
  destruct (@download_idle H L fuel st rs Hc) as (evs & E1 & E2 & _ & E4 & E5).
  exists evs; repeat split; auto.
  intros ev Hin; rewrite forallb_forall in E2; specialize (E2 ev Hin).
  destruct ev; cbn in E2; try discriminate; eauto.
Qed.

(** Witness of X7: a folder run that is cancelled before it starts. *)
Lemma cancelled_run_transfers_nothing_witness :
  let st := set_is_cancelled true (Sample.fresh true 0 2 (lit "F")) in
  let r := download (Sample.drive Sample.two_chunks)
             (Sample.listener (lit "root")) 4 st [delivered; delivered] in
  exists evs,
    trace (final r) = trace st ++ evs
    /\ (forall ev, In ev evs ->
          ev = UpdaterStart \/ ev = UpdaterCancel
          \/ exists msg, ev = OnDownloadError msg)
    /\ files (final r) = files st
    /\ match r with
       | Returned _ rs' | Raised _ _ rs' => rs' = [delivered; delivered]
       | _ => True
       end.
Proof.
  apply (@cancelled_run_transfers_nothing (Sample.drive Sample.two_chunks)
           (Sample.listener (lit "root")) 4
           (set_is_cancelled true (Sample.fresh true 0 2 (lit "F")))
           [delivered; delivered]).
  reflexivity.
Defined.

(** ** The export of documents *)

Lemma faulty_script_clean (n : nat) :
  faulty_script (repeat [] n) = repeat delivered n.
Proof. induction n as [|n IH]; cbn; [reflexivity | now f_equal]. Qed.

Lemma requests_of_clean (fid : pystr) (ex : bool) (n : nat) :
  forall i,
    requests_of fid ex (repeat [] n) i = map (NextChunk fid ex) (seq i n).
Proof.
  induction n as [|n IH]; intros i; cbn; [reflexivity | now rewrite IH].
Qed.

Lemma Forall_repeat_nil (E : Type) (P : E -> Prop) (n : nat) :
  Forall (Forall P) (repeat [] n).
Proof. induction n; cbn; constructor; auto. Qed.

Lemma concat_repeat_nil (E : Type) (n : nat) :
  List.concat (repeat (@nil E) n) = [].
Proof. induction n; cbn; auto. Qed.

Lemma write_chunks_other (p q : pystr) (chunks : list bytes) :
  q <> p ->
  forall n i fs, fs_get q (write_chunks p chunks i n fs) = fs_get q fs.
Proof.
  intros Hq n; induction n as [|n IH]; intros i fs; cbn [write_chunks];
    [reflexivity|].
  rewrite IH; now apply fs_get_append_other.
Qed.

(** A transfer that meets no error. *)
Lemma _download_file_clean (H : helper) (fuel : nat) (a : args) (st : state)
    (rest : script) :
  is_cancelled st = false -> can_open H a st ->
  let chunks := media H (export a) (file_id a) in
  let p := file_path (path a) (prepared_filename (export a) (filename a)) in
  exists st',
    _download_file H (S fuel) a st (repeat delivered (fetches chunks) ++ rest)
    = Returned st' rest
    /\ trace st'
       = trace st
         ++ FileOpen p
            :: map (NextChunk (file_id a) (export a)) (seq 0 (fetches chunks))
    /\ fs_get (realpath H p) (files st') = Some (List.concat chunks)
    /\ forall c, c <> realpath H p ->
                 fs_get c (files st') = fs_get c (files st).
Proof.
  intros Hc Hopen chunks p.
  destruct (@download_file_attempt_faulty H (_download_file H fuel) a st
              (repeat [] (fetches chunks)) rest Hc Hopen)
    as (st' & Hrun & Htr & Hfi).
  - now rewrite repeat_length.
  - apply Forall_repeat_nil.
  - rewrite concat_repeat_nil; cbn; unfold retry_ceiling; lia.
  - rewrite faulty_script_clean in Hrun.
    rewrite requests_of_clean, repeat_length in *.
    exists st'; cbn [_download_file]; split; [|split; [|split]].
    + now apply retrying_returned.
    + exact Htr.
    + rewrite Hfi, write_chunks_get with (c := []) by apply fs_get_put.
      cbn [skipn app]; f_equal; f_equal.
      apply firstn_all2; unfold fetches, chunks; lia.
    + intros q Hq; rewrite Hfi, write_chunks_other by assumption.
      now apply fs_get_put_other.
Qed.

(** Lines 145-152: the answer [fileNotDownloadable] on an object whose MIME
    type names a document starts the method again with [export] set. *)
Lemma chunk_loop_not_downloadable (H : helper)
    (self : args -> state -> script -> result) (a : args)
    (progress retries : nat) (st : state) (e : http_error)
    (reason m : pystr) (rs : script) :
  is_cancelled st = false ->
  retried_in_place e retries = false -> is_json e = true ->
  content e = Reason reason ->
  contains (lit "fileNotDownloadable") reason = true ->
  mime_type a = Some m -> contains (lit "document") m = true ->
  chunk_loop H self a progress retries st (failing e :: rs)
  = self (with_export true a)
      (emit (NextChunk (file_id a) (export a) progress) st) rs.
Proof.
  intros Hc Hr Hj He Hn Hm Hd; unfold failing.
  cbn [chunk_loop outcome_of cancel_set]; rewrite Hc, Hr, Hj, He, Hn, Hm, Hd.
  reflexivity.
Qed.

(** X8 ([_download_file], lines 104-117 and 145-152): when the first request
    for an object whose MIME type contains [document] is answered with the
    reason [fileNotDownloadable], the object is exported instead: where the
    two files can be opened, a second file is opened under the prepared
    name with [.pdf] appended, the export is fetched from its first chunk,
    and that file holds the exported object when the method returns.  The
    file opened first is never closed. *)
Theorem not_downloadable_document_exported (H : helper) (fuel : nat)
    (a : args) (st : state) (e : http_error) (reason m : pystr)
    (rest : script) :
  is_cancelled st = false ->
  retried_in_place e 0 = false -> is_json e = true ->
  content e = Reason reason ->
  contains (lit "fileNotDownloadable") reason = true ->
  mime_type a = Some m -> contains (lit "document") m = true ->
  let name0 := prepared_filename (export a) (filename a) in
  let name1 := prepared_filename true name0 in
  let chunks := media H true (file_id a) in
  can_open H a st ->
  can_open H (with_export true (with_filename name0 a))
    (opened H (file_path (path a) name0) st) ->
  exists st',
    _download_file H (S (S fuel)) a st
      (failing e :: repeat delivered (fetches chunks) ++ rest)
    = Returned st' rest
    /\ trace st'
       = trace st
         ++ [FileOpen (file_path (path a) name0);
             NextChunk (file_id a) (export a) 0;
             FileOpen (file_path (path a) name1)]
         ++ map (NextChunk (file_id a) true) (seq 0 (fetches chunks))
    /\ fs_get (realpath H (file_path (path a) name1)) (files st')
       = Some (List.concat chunks).
Proof.
  intros Hc Hr Hj He Hn Hm Hd name0 name1 chunks Hopen0 Hopen1.
  destruct (track_truncation_same (export a) (filename a) st)
    as (Tc & Tt & Tf).
  set (a0 := with_filename name0 a) in *.
  set (st0 := opened H (file_path (path a) name0)
                (track_truncation (export a) (filename a) st)).
  set (st1 := emit (NextChunk (file_id a) (export a) 0) st0).
  destruct (@_download_file_clean H fuel (with_export true a0) st1 rest)
    as (st' & Hrun & Htr & Hfi & _).
  { cbn; now rewrite Tc. }
  { apply can_open_same with (opened H (file_path (path a) name0) st);
      [|subst st1 st0; cbn; apply track_truncation_dirs|exact Hopen1].
    subst st1 st0; cbn; now rewrite Tf. }
  exists st'; split; [|split].
  - cbn [_download_file]; apply retrying_returned.
    rewrite download_file_attempt_opened by assumption.
    fold name0; fold a0; fold st0.
    rewrite (@chunk_loop_not_downloadable H _ a0 0 0 st0 e reason m); auto.
    cbn; now rewrite Tc.
  - rewrite Htr; cbn; rewrite Tt, <- !app_assoc; reflexivity.
  - exact Hfi.
Qed.

(** Witness of X8: a Google Docs document of two chunks. *)
Lemma not_downloadable_document_exported_witness :
  exists st',
    _download_file (Sample.drive Sample.two_chunks) 2
      (Sample.document_args (lit "a")) (Sample.fresh false 0 0 (lit "a"))
      (failing Sample.not_downloadable :: repeat delivered 2 ++ [])
    = Returned st' []
    /\ trace st'
       = [FileOpen (lit "/dl/a"); NextChunk (lit "id1") false 0;
          FileOpen (lit "/dl/a.pdf")]
         ++ map (NextChunk (lit "id1") true) (seq 0 2)
    /\ fs_get (lit "/dl/a.pdf") (files st')
       = Some [Byte.x68; Byte.x65; Byte.x79].
Proof.
  apply (@not_downloadable_document_exported
           (Sample.drive Sample.two_chunks) 0
           (Sample.document_args (lit "a")) (Sample.fresh false 0 0 (lit "a"))
           Sample.not_downloadable (lit "fileNotDownloadable")
           (lit "application/vnd.google-apps.document") []);
    try reflexivity; split; reflexivity.
Defined.

(** ** The name a file is stored under *)

Lemma startswith_app (p s : pystr) : startswith p (p ++ s) = true.
Proof.
  induction p as [|c p IH]; cbn; [reflexivity|].
  now rewrite N.eqb_refl, IH.
Qed.

Lemma endswith_app (p s : pystr) : endswith p (s ++ p) = true.
Proof. unfold endswith; rewrite rev_app_distr; apply startswith_app. Qed.

Lemma endswith_nil (s : pystr) : endswith [] s = true.
Proof. reflexivity. Qed.

(** The extension [splitext] gives is a suffix of the name. *)
Lemma splitext_suffix (p : pystr) : endswith (snd (splitext p)) p = true.
Proof.
  unfold splitext.
  destruct (rfind dot p) as [d|]; [|apply endswith_nil].
  destruct (_ && _); cbn [snd]; [|apply endswith_nil].
  rewrite <- (firstn_skipn d p) at 2; apply endswith_app.
Qed.

Lemma splitext_subset (p : pystr) (c : N) :
  In c (snd (splitext p)) -> In c p.
Proof.
  unfold splitext.
  destruct (rfind dot p) as [d|]; [|contradiction].
  destruct (_ && _); cbn [snd]; [|contradiction].
  intros Hin; rewrite <- (firstn_skipn d p); apply in_or_app; now right.
Qed.

Lemma requested_filename_no_slash (ex : bool) (filename : pystr) :
  ~ In slash (requested_filename ex filename).
Proof.
  assert (Hr : ~ In slash (remove_char slash filename)).
  { unfold remove_char; intros Hin; apply filter_In in Hin as [_ Hin].
    now rewrite N.eqb_refl in Hin. }
  unfold requested_filename; destruct ex; [|exact Hr].
  intros Hin; apply in_app_or in Hin as [Hin|Hin]; [now apply Hr|].
  cbn in Hin; unfold slash in Hin.
  repeat (destruct Hin as [Hin|Hin]; [discriminate|]); exact Hin.
Qed.

(** X9 ([_download_file], lines 115-120): the name the file is opened under
    holds no [/], so the file lies in [path] itself whatever the remote name
    is; it ends with the extension [splitext] finds in the requested name;
    and it is the requested name itself unless that takes more than 255
    bytes, in which case it has the first 245 characters of the name (or
    all, when there are fewer) and the extension after them. *)
Theorem prepared_filename_shape (ex : bool) (filename : pystr) :
  let requested := requested_filename ex filename in
  let stored := prepared_filename ex filename in
  ~ In slash stored
  /\ endswith (snd (splitext requested)) stored = true
  /\ (encoded_len requested <= 255 -> stored = requested)
  /\ (255 < encoded_len requested ->
      List.length stored
      = Nat.min 245 (List.length requested)
        + List.length (snd (splitext requested))).
Proof.
  intros requested stored.
  pose proof (@requested_filename_no_slash ex filename) as Hs.
  fold requested in Hs.
  assert (Hstored : stored = if 255 <? encoded_len requested
                             then firstn 245 requested
                                    ++ snd (splitext requested)
                             else requested) by reflexivity.
  rewrite Hstored.
  destruct (Nat.ltb_spec 255 (encoded_len requested)) as [Hl|Hl];
    repeat split.
  - intros Hin; apply in_app_or in Hin as [Hin|Hin].
    + apply Hs; rewrite <- (firstn_skipn 245 requested).
      apply in_or_app; now left.
    + apply Hs; now apply splitext_subset.
  - apply endswith_app.
  - lia.
  - intros _; now rewrite length_app, length_firstn.
  - exact Hs.
  - apply splitext_suffix.
  - lia.
Qed.

(** X10 ([_download_file], lines 118-120): the length is tested in bytes and
    the cut made in characters, so a name of 245 characters or fewer that
    takes more than 255 bytes is not cut at all: it is stored with its
    extension appended a second time. *)
Theorem short_wide_name_grows (ex : bool) (filename : pystr) :
  let requested := requested_filename ex filename in
  255 < encoded_len requested ->
  List.length requested <= 245 ->
  prepared_filename ex filename = requested ++ snd (splitext requested).
Proof.
  intros requested Hl Hshort.
  change (prepared_filename ex filename)
    with (if 255 <? encoded_len requested
          then firstn 245 requested ++ snd (splitext requested)
          else requested).
  destruct (Nat.ltb_spec 255 (encoded_len requested)); [|lia].
  now rewrite firstn_all2.
Qed.

(** Witness of X10: a hundred four-byte characters and [.txt]. *)
Lemma short_wide_name_grows_witness :
  prepared_filename false (repeat 128512%N 100 ++ lit ".txt")
  = requested_filename false (repeat 128512%N 100 ++ lit ".txt")
    ++ snd (splitext
              (requested_filename false (repeat 128512%N 100 ++ lit ".txt"))).
Proof.
  apply (@short_wide_name_grows false (repeat 128512%N 100 ++ lit ".txt")).
  - vm_compute; lia.
  - vm_compute; lia.
Defined.

(** Witness of X11: three hundred letters and [.txt]. *)
Lemma prepared_filename_ascii_fits_witness :
  encoded_len (prepared_filename false (repeat 97%N 300 ++ lit ".txt")) <= 255.
Proof.
  apply (@prepared_filename_ascii_fits false (repeat 97%N 300 ++ lit ".txt")).
  - vm_compute; repeat constructor.
  - vm_compute; lia.
Defined.

(** Witness of X12: three hundred two-byte letters and [.txt]. *)
Lemma prepared_filename_wide_overflows_witness :
  255 < encoded_len (prepared_filename false Sample.long_name).
Proof.
  apply (@prepared_filename_wide_overflows false Sample.long_name).
  - vm_compute; repeat constructor; discriminate.
  - vm_compute; lia.
Defined.

(** ** Folders *)











(** ** Where files are opened *)

Lemma startswith_app_r (p s t : pystr) :
  startswith p s = true -> startswith p (s ++ t) = true.
Proof.
  revert s; induction p as [|c p IH]; intros [|d s]; cbn; auto;
    [discriminate|].
  intros Hs; apply andb_true_iff in Hs as [-> Hs]; cbn; auto.
Qed.

Lemma file_path_under (root dir f : pystr) :
  within root dir -> startswith (root ++ lit "/") (file_path dir f) = true.
Proof.
  unfold file_path; intros [->|Hd].
  - rewrite app_assoc; apply startswith_app.
  - now apply startswith_app_r.
Qed.

Lemma within_child (root dir n : pystr) :
  within root dir -> within root (file_path dir n).
Proof. intros Hd; right; now apply file_path_under. Qed.

Lemma under_refl (root : pystr) (st : state) : opens_under root st st.
Proof. exists []; split; [now rewrite app_nil_r | contradiction]. Qed.

Lemma under_events (root : pystr) (s0 st st' : state) (evs : list event) :
  opens_under root s0 st ->
  trace st' = trace st ++ evs ->
  (forall p, In (FileOpen p) evs -> startswith (root ++ lit "/") p = true) ->
  opens_under root s0 st'.
Proof.
  intros (xs & X1 & X2) E1 E2; exists (xs ++ evs); split.
  - now rewrite E1, X1, app_assoc.
  - intros p Hin; apply in_app_or in Hin as [Hin|Hin]; auto.
Qed.

Lemma under_same (root : pystr) (s0 st st' : state) :
  opens_under root s0 st -> trace st' = trace st -> opens_under root s0 st'.
Proof.
  intros K E; apply (@under_events root s0 st st' [] K);
    [now rewrite app_nil_r | contradiction].
Qed.

(** A step that opens no file. *)
Ltac under_by K :=
  first
    [ exact K
    | eapply under_same; [exact K | reflexivity]
    | eapply under_events;
      [ exact K
      | cbn; rewrite <- ?app_assoc; reflexivity
      | cbn; intros ? ?; intuition discriminate ] ].

Lemma under_flag root s0 st (b : bool) :
  opens_under root s0 st ->
  opens_under root s0 (if b then set_is_cancelled true st else st).
Proof. intros K; destruct b; under_by K. Qed.

Lemma under_track_truncation root s0 st ex f :
  opens_under root s0 st ->
  opens_under root s0 (track_truncation ex f st).
Proof.
  intros K; eapply under_same; [exact K|].
  apply (proj1 (proj2 (track_truncation_same ex f st))).
Qed.

Lemma under_makedirs root s0 st d :
  opens_under root s0 st -> opens_under root s0 (makedirs d st).
Proof.
  intros K; eapply under_same; [exact K | apply (makedirs_same d st)].
Qed.

Section Under.

Variable H : helper.
Variable L : listener_config.
Variable root : pystr.

Ltac split_ifs :=
  repeat match goal with
    | |- context [if ?b then _ else _] => destruct b eqn:?
    | |- context [match ?x with _ => _ end] => destruct x eqn:?
    end.

Lemma chunk_loop_opener (self : args -> state -> script -> result) :
  (forall a, within root (path a) -> opener root (self a)) ->
  forall rs a progress retries s0 st,
    within root (path a) ->
    opens_under root s0 st ->
    opens_under root s0 (final (chunk_loop H self a progress retries st rs)).
Proof.
  intros Hself rs; induction rs as [|r rs IH];
    intros a progress retries s0 st Ha K.
  - cbn; destruct (is_cancelled st); cbn; under_by K.
  - cbn [chunk_loop].
    destruct (is_cancelled st) eqn:Hc; [cbn; under_by K|].
    cbv zeta.
    set (st1 := if cancel_set r then _ else _).
    assert (K1 : opens_under root s0 st1).
    { subst st1; apply under_flag; under_by K. }
    clearbody st1; clear K.
    destruct (outcome_of r) as [|e|cls msg]; [| |exact K1].
    + destruct (_ <=? _); [cbn; under_by K1|].
      apply IH; [assumption | under_by K1].
    + destruct (retried_in_place e retries); [now apply IH|].
      destruct (is_json e); [|now apply IH].
      destruct (content e) as [reason|cls msg]; [|exact K1].
      split_ifs; cbn [final]; try exact K1;
        apply Hself; try exact Ha; under_by K1.
Qed.

(** Line 126: the file is opened in [path]. *)
Lemma download_file_attempt_opener
    (self : args -> state -> script -> result) :
  (forall a, within root (path a) -> opener root (self a)) ->
  forall a, within root (path a) ->
            opener root (download_file_attempt H self a).
Proof.
  intros Hself a Ha s0 st rs K; unfold download_file_attempt.
  destruct (encode_error _); [exact K|].
  assert (K1 : opens_under root s0
                 (track_truncation (export a) (filename a) st))
    by now apply under_track_truncation.
  destruct (is_cancelled _); [exact K1|].
  unfold open_wb; destruct (open_error _ _ _ _); [exact K1|].
  apply chunk_loop_opener; auto.
  eapply under_events; [exact K1 | cbn; reflexivity|].
  intros p [Hp|[]]; inversion Hp; subst.
  now apply file_path_under.
Qed.

Lemma retrying_opener (f : state -> script -> result) (more : nat) :
  opener root f -> opener root (retrying more f).
Proof.
  intros Hf; induction more as [|k IH]; intros s0 st rs K; cbn [retrying];
    specialize (Hf s0 st rs K); destruct (f st rs); auto.
Qed.

Lemma _download_file_opener (fuel : nat) (a : args) :
  within root (path a) -> opener root (_download_file H fuel a).
Proof.
  revert a; induction fuel as [|fuel IH]; intros a Ha s0 st rs K;
    cbn [_download_file]; [exact K|].
  apply retrying_opener; auto.
  now apply download_file_attempt_opener.
Qed.

(** Lines 70-73 and 88: a child folder is stored below the folder. *)
Lemma _download_folder_opener (fuel : nat)
    (folder_id dir folder_name : pystr) :
  within root dir ->
  opener root (_download_folder H L fuel folder_id dir folder_name).
Proof.
  revert folder_id dir folder_name;
    induction fuel as [|fuel IH];
    intros folder_id dir folder_name Hd s0 st rs K;
    cbn [_download_folder]; [exact K|].
  cbv zeta.
  set (st1 := if exists_path _ st then st else _).
  assert (K1 : opens_under root s0 st1)
    by (subst st1; destruct (exists_path _ st);
        [exact K | now apply under_makedirs]).
  clearbody st1; clear K st.
  destruct (get_files_by_folder_id _ _ _) as [e|listing]; [exact K1|].
  destruct (_ =? 0); [exact K1|].
  assert (Hd' : within root
                  (dir ++ lit "/" ++ remove_char slash folder_name))
    by now apply within_child.
  generalize (sorted_by_name listing); intros items.
  revert st1 rs K1; induction items as [|it items IHi]; intros st rs K;
    [exact K|].
  match goal with
  | |- opens_under _ _ (final (match ?r with _ => _ end)) =>
      assert (Hr : opens_under root s0 (final r));
      [|destruct r as [st2 rs2| | |]; auto]
  end.
  - repeat match goal with
      | |- context [if ?b then _ else _] => destruct b
      end;
      [now apply IH | now apply _download_file_opener | exact K].
  - destruct (is_cancelled st2); [exact Hr | now apply IHi].
Qed.

Lemma try_block_opener (fuel : nat) (root_id : pystr) :
  root = _path L -> opener root (try_block H L fuel root_id).
Proof.
  intros Hroot s0 st rs K; unfold try_block.
  destruct (get_file_metadata _ _ _) as [e|m]; [exact K|].
  destruct (option_eqb _ _).
  - apply _download_folder_opener; [now left | exact K].
  - apply _download_file_opener; [now left | now apply under_makedirs].
Qed.

Lemma under_finally_block s0 st :
  opens_under root s0 st -> opens_under root s0 (finally_block st).
Proof.
  intros K; unfold finally_block; destruct (is_cancelled _); under_by K.
Qed.

Lemma under_report_error s0 st msg :
  opens_under root s0 st -> opens_under root s0 (report_error msg st).
Proof. intros K; unfold report_error; under_by K. Qed.

Lemma download_opener (fuel : nat) :
  root = _path L -> opener root (download H L fuel).
Proof.
  intros Hroot; induction fuel as [|fuel IH]; intros s0 st rs K;
    cbn [download]; [exact K|].
  cbv zeta.
  assert (K1 : opens_under root s0 (started st))
    by (unfold started; under_by K).
  pose proof (@try_block_opener fuel
                (get_id_from_url H (link L) (user_id L)) Hroot s0 _ rs K1)
    as K2.
  destruct (try_block _ _ _ _ _) as [st2 rs2|e st2 rs2|st2|st2];
    cbn [final] in *; auto using under_finally_block.
  destruct (contains _ _);
    [cbn [final]; auto using under_finally_block, under_report_error|].
  destruct (contains _ _);
    [|cbn [final]; auto using under_finally_block, under_report_error].
  destruct (negb _ && _);
    [|cbn [final]; auto using under_finally_block, under_report_error].
  assert (K3 : opens_under root s0 (alt_auth_fallback st2))
    by (unfold alt_auth_fallback; under_by K2).
  specialize (IH s0 _ rs2 K3).
  destruct (download _ _ _ _ _); cbn [after_retry final] in *;
    auto using under_finally_block.
Qed.

End Under.

(** X14 ([download], [_download_folder] lines 70-73 and 88,
    [_download_file] lines 115 and 126): every file a run opens for writing
    lies below the directory the object was built with, whatever names the
    remote objects have. *)
Theorem files_opened_below_path (H : helper) (L : listener_config)
    (fuel : nat) (st : state) (rs : script) :
  exists evs,
    trace (final (download H L fuel st rs)) = trace st ++ evs
    /\ forall p, In (FileOpen p) evs ->
                 startswith (_path L ++ lit "/") p = true.
Proof.
  exact (@download_opener H L (_path L) fuel eq_refl st st rs
           (under_refl (_path L) st)).
Qed.

(** ** What leaves the methods *)

(** An attempt that raises has failed to encode the name, has been refused
    the file, or has opened the file. *)
Lemma download_file_attempt_raised (H : helper) (fuel : nat) (a : args)
    (st st' : state) (rs rs' : script) (e : exn) :
  download_file_attempt H (_download_file H fuel) a st rs = Raised e st' rs' ->
  let p := file_path (path a) (prepared_filename (export a) (filename a)) in
  (trace st' = trace st /\ rs' = rs
   /\ (encode_error (requested_filename (export a) (filename a)) = Some e
       \/ open_error H (files st) (dirs st) p = Some e))
  \/ exists evs, trace st' = trace st ++ FileOpen p :: evs.
Proof.
  intros Hrun p; unfold download_file_attempt in Hrun.
  destruct (track_truncation_same (export a) (filename a) st)
    as (_ & Tt & Tf).
  pose proof (track_truncation_dirs (export a) (filename a) st) as Td.
  destruct (encode_error _) as [x|].
  { inversion Hrun; subst; left; auto. }
  destruct (is_cancelled _); [discriminate|].
  unfold open_wb in Hrun; rewrite Tf, Td in Hrun; fold p in Hrun.
  destruct (open_error H (files st) (dirs st) p) as [x|].
  { inversion Hrun; subst; left; auto. }
  right.
  set (st0 := opened _ _ _) in Hrun.
  destruct (@chunk_loop_quiet H (_download_file H fuel)
              (_download_file_quiet H fuel) rs
              (with_filename (prepared_filename (export a) (filename a)) a)
              0 0 st0 st0 [] (quiet_refl st0)) as [_ _ _ (evs & Ht & _)].
  rewrite Hrun in Ht; cbn [final] in Ht.
  exists evs; rewrite Ht; subst st0; cbn; rewrite Tt, <- app_assoc.
  reflexivity.
Qed.

(** X15 ([_download_file], lines 98-102): when the decorated method raises,
    three attempts have been made, one from where the other ended, each of
    them has raised, and what is raised is tenacity's [RetryError] around
    the exception of the third.  An attempt that raises has either done
    nothing (the name could not be encoded, or the file could not be
    opened) or has opened the destination file anew. *)
Theorem method_fails_after_three_attempts (H : helper) (fuel : nat)
    (a : args) (st st' : state) (rs rs' : script) (e : exn) :
  _download_file H fuel a st rs = Raised e st' rs' ->
  let p := file_path (path a) (prepared_filename (export a) (filename a)) in
  exists fuel0 e1 e2 e3 s1 s2 r1 r2,
    fuel = S fuel0
    /\ download_file_attempt H (_download_file H fuel0) a st rs
       = Raised e1 s1 r1
    /\ download_file_attempt H (_download_file H fuel0) a s1 r1
       = Raised e2 s2 r2
    /\ download_file_attempt H (_download_file H fuel0) a s2 r2
       = Raised e3 st' rs'
    /\ e = RetryError e3
    /\ forall s r x s' r',
         download_file_attempt H (_download_file H fuel0) a s r
         = Raised x s' r' ->
         (trace s' = trace s /\ r' = r
          /\ (encode_error (requested_filename (export a) (filename a))
              = Some x
              \/ open_error H (files s) (dirs s) p = Some x))
         \/ exists evs, trace s' = trace s ++ FileOpen p :: evs.
Proof.
  intros Hrun p; destruct fuel as [|fuel]; [discriminate|].
  cbn [_download_file] in Hrun; unfold stop_after_attempt in Hrun.
  cbn [Nat.sub retrying] in Hrun.
  set (f := download_file_attempt H (_download_file H fuel) a) in *.
  destruct (f st rs) as [| e1 st1 rs1 | |] eqn:R1; try discriminate.
  destruct (f st1 rs1) as [| e2 st2 rs2 | |] eqn:R2; try discriminate.
  destruct (f st2 rs2) as [| e3 st3 rs3 | |] eqn:R3; try discriminate.
  inversion Hrun; subst.
  exists fuel, e1, e2, e3, st1, st2, rs1, rs2.
  repeat (split; [reflexivity || assumption|]).
  intros s r x s' r' Hx; exact (download_file_attempt_raised _ _ _ _ _ Hx).
Qed.

(** Witness of X15: three answers with a body that cannot be evaluated. *)
Lemma method_fails_after_three_attempts_witness :
  let f := download_file_attempt (Sample.drive Sample.two_chunks)
             (_download_file (Sample.drive Sample.two_chunks) 0)
             (Sample.file_args (lit "a.txt")) in
  exists e1 e2 e3 s1 s2 r1 r2,
    f (Sample.fresh false 0 0 (lit "a.txt"))
      [failing Sample.unparsable; failing Sample.unparsable;
       failing Sample.unparsable]
    = Raised e1 s1 r1
    /\ f s1 r1 = Raised e2 s2 r2
    /\ (exists s3, f s2 r2 = Raised e3 s3 [])
    /\ RetryError (PyError (lit "NameError")
                     (lit "name 'null' is not defined"))
       = RetryError e3.
Proof.
  intros f.
  destruct (@method_fails_after_three_attempts
              (Sample.drive Sample.two_chunks) 1
              (Sample.file_args (lit "a.txt"))
              (Sample.fresh false 0 0 (lit "a.txt"))
              (final (_download_file (Sample.drive Sample.two_chunks) 1
                        (Sample.file_args (lit "a.txt"))
                        (Sample.fresh false 0 0 (lit "a.txt"))
                        [failing Sample.unparsable; failing Sample.unparsable;
                         failing Sample.unparsable]))
              [failing Sample.unparsable; failing Sample.unparsable;
               failing Sample.unparsable] []
              (RetryError (PyError (lit "NameError")
                             (lit "name 'null' is not defined"))))
    as (fuel0 & e1 & e2 & e3 & s1 & s2 & r1 & r2
        & Hfuel & R1 & R2 & R3 & He & _).
  - vm_compute; reflexivity.
  - injection Hfuel as <-.
    exists e1, e2, e3, s1, s2, r1, r2; repeat split; eauto.
Defined.

(** X16 ([download], lines 46-66): no exception leaves [download]: whatever
    the [try] block raises is turned into the error callback or into the
    second call, and that call raises nothing either. *)
Theorem download_never_raises (H : helper) (L : listener_config)
    (fuel : nat) (st : state) (rs : script) :
  match download H L fuel st rs with
  | Raised _ _ _ => False
  | _ => True
  end.
Proof.
  revert st rs; induction fuel as [|fuel IH]; intros st rs; [exact I|].
  cbn [download]; cbv zeta.
  destruct (try_block _ _ _ _ _ _) as [st1 rs1|e st1 rs1|st1|st1]; auto.
  destruct (contains _ _); [exact I|].
  destruct (contains _ _); [|exact I].
  destruct (negb _ && _); [|exact I].
  specialize (IH (alt_auth_fallback st1) rs1).
  destruct (download _ _ _ _ _); cbn [after_retry]; auto.
Qed.

(** ** Witnesses of the general facts above *)

(** Witness of X17: the store hides the file from the service accounts; the
    second call fetches it with the primary credential. *)
Lemma fallback_success_reports_twice_witness :
  exists t,
    trace (final (download Sample.drive_hidden_from_sa
                    (Sample.listener (lit "id1")) 4
                    (Sample.fresh true 0 2 (lit "a.txt"))
                    [delivered; delivered]))
    = t ++ [UpdaterCancel; OnDownloadComplete;
            UpdaterCancel; OnDownloadComplete].
Proof.
  apply (@fallback_success_reports_twice Sample.drive_hidden_from_sa
           (Sample.listener (lit "id1")) 3
           (Sample.fresh true 0 2 (lit "a.txt"))
           (started (Sample.fresh true 0 2 (lit "a.txt")))
           (final (download Sample.drive_hidden_from_sa
                     (Sample.listener (lit "id1")) 3
                     (alt_auth_fallback
                        (started (Sample.fresh true 0 2 (lit "a.txt"))))
                     [delivered; delivered]))
           [delivered; delivered] [delivered; delivered] []
           (HttpError Sample.not_found)).
  - vm_compute; reflexivity.
  - vm_compute; reflexivity.
  - reflexivity.
  - reflexivity.
  - vm_compute; reflexivity.
  - vm_compute; reflexivity.
Defined.

(** Witness of X18: three quota errors with two service accounts left; the
    method calls itself twice and ends with the levels it was given. *)
Lemma _download_file_enough_fuel_witness :
  bounded
    (List.length [failing Sample.quota; failing Sample.quota;
                  failing Sample.quota])
    (_download_file (Sample.drive Sample.two_chunks) 4
       (Sample.file_args (lit "a.txt")) (Sample.fresh true 0 2 (lit "a.txt"))
       [failing Sample.quota; failing Sample.quota; failing Sample.quota]).
Proof.
  apply (@_download_file_enough_fuel (Sample.drive Sample.two_chunks) 4
           (Sample.file_args (lit "a.txt"))
           (Sample.fresh true 0 2 (lit "a.txt"))
           [failing Sample.quota; failing Sample.quota; failing Sample.quota]).
  cbn; lia.
Defined.

(** ** How often the listener is called back *)

Lemma single_pass_callbacks (d : bool) (evs : list event) :
  single_pass d evs -> List.length (filter is_callback evs) <= 1.
Proof.
  intros Hs; destruct Hs as [|q Hq|q fin Hq Hfin|q msg Hq Hm]; cbn;
    rewrite ?filter_app, ?(transfer_only_no_callback Hq); cbn; try lia.
  destruct Hfin as [-> | ->]; cbn; lia.
Qed.

(** X19 ([download], lines 46-66): the listener is called back (error or
    completion) twice at most in a run, and once at most when the fallback is
    not available on entry ([alt_auth] is set or service accounts are not in
    use). *)
Theorem callbacks_at_most_one_per_call (H : helper) (L : listener_config)
    (fuel : nat) (st : state) (rs : script) :
  exists evs,
    trace (final (download H L fuel st rs)) = trace st ++ evs
    /\ List.length (filter is_callback evs)
       <= if negb (alt_auth st) && use_sa st then 2 else 1.
Proof.
  destruct (negb (alt_auth st) && use_sa st) eqn:Hlatch.
  - destruct (download_run_events H L fuel st rs) as (evs & Ht & Hr).
    exists evs; split; [assumption|].
    destruct Hr as [d evs Hs|q inner fin Hq Hs Hfin|q inner Hq Hs].
    + pose proof (single_pass_callbacks Hs); lia.
    + pose proof (single_pass_callbacks Hs) as Hi; cbn.
      rewrite filter_app, (transfer_only_no_callback Hq); cbn.
      rewrite filter_app, length_app.
      destruct Hfin as [-> | ->]; cbn; lia.
    + pose proof (single_pass_callbacks Hs) as Hi; cbn.
      rewrite filter_app, (transfer_only_no_callback Hq); cbn; lia.
  - destruct (download_single_pass H L fuel st rs Hlatch) as (evs & Ht & Hs).
    exists evs; split; [assumption|].
    now apply single_pass_callbacks
      with (d := is_done (download H L fuel st rs)).
Qed.

(** ** Cancellation while a request is in flight *)





(** The fallback while cancelling: service accounts are in use, and the
    request of the third attempt fails with "File not found" while the user
    cancels.  The handler calls [download] again, that call returns at line
    125, and no callback is invoked at all. *)
Lemma cancel_during_not_found_takes_fallback :
  let r := download (Sample.drive Sample.two_chunks)
             (Sample.listener (lit "id1")) 3
             (Sample.fresh true 0 2 (lit "a.txt"))
             [failing Sample.not_found; failing Sample.not_found;
              cancelled_during (Failed Sample.not_found); delivered] in
  (exists st, r = Returned st [delivered])
  /\ trace (final r)
     = [UpdaterStart;
        FileOpen (lit "/dl/a.txt"); NextChunk (lit "id1") false 0;
        FileOpen (lit "/dl/a.txt"); NextChunk (lit "id1") false 0;
        FileOpen (lit "/dl/a.txt"); NextChunk (lit "id1") false 0;
        UpdaterCancel; UpdaterStart; UpdaterCancel; UpdaterCancel].
Proof.
  split; [eexists; vm_compute; reflexivity | vm_compute; reflexivity].
Qed.
